(** * GC9A01 round display sketches: bus driver and raster primitives

    A shallow embedding of the register-level display driver of
    [DigitalMeters.ino] and [HelloWorld.ino] (bus transport, controller
    initialisation, window addressing and fill, line, circle and glyph
    rasterisers) and of the [drawArc] helper of the gauge sketches.

    Conventions.  A C value of type [uint8_t], [uint16_t], [int16_t] or
    [int] is a [Z]; every store into a narrower type is written out with
    [u8], [u16] or [s16].  A parameter of type [uint16_t] is a [Z] in
    [0, 65535]; a call site whose argument expression has type [int]
    converts it with [u16], as the C call does.  The effect of a function
    is the list of pin writes, SPI transfers and delays it performs, in
    program order. *)

From Stdlib Require Import ZArith List Lia Bool Ascii String.
From Stdlib Require Import Floats.SpecFloat.
From stdpp Require Import gmap list.

Local Open Scope Z_scope.

(** ** Machine integers *)

Definition u8 (v : Z) : Z := v mod 256.
Definition u16 (v : Z) : Z := v mod 65536.
Definition s16 (v : Z) : Z := (v + 32768) mod 65536 - 32768.

Definition is_u16 (v : Z) : Prop := 0 <= v < 65536.

(** ** Pins, SPI transfers and delays *)

Inductive pin := TFT_DC | TFT_CS | TFT_BL.
Inductive level := LOW | HIGH.

Inductive io :=
| DigitalWrite (p : pin) (l : level)
| Transfer (b : Z)
| Delay (ms : Z).

Definition TFT_WIDTH : Z := 240.
Definition TFT_HEIGHT : Z := 240.

Definition BLACK : Z := 0x0000.
Definition WHITE : Z := 0xFFFF.
Definition RED : Z := 0xF800.

(** [tft_send_cmd(uint8_t cmd)], DigitalMeters.ino 66-71. *)
Definition tft_send_cmd (cmd : Z) : list io :=
  [DigitalWrite TFT_DC LOW; DigitalWrite TFT_CS LOW;
   Transfer (u8 cmd); DigitalWrite TFT_CS HIGH].

(** [tft_send_data(uint8_t data)], DigitalMeters.ino 73-78. *)
Definition tft_send_data (data : Z) : list io :=
  [DigitalWrite TFT_DC HIGH; DigitalWrite TFT_CS LOW;
   Transfer (u8 data); DigitalWrite TFT_CS HIGH].

(** [tft_set_addr_window], DigitalMeters.ino 80-97.  [x + w - 1] is
    computed in [int]; [>>] on a negative [int] is the arithmetic shift. *)
Definition tft_set_addr_window (x y w h : Z) : list io :=
  tft_send_cmd 0x2A ++
  tft_send_data (Z.shiftr x 8) ++
  tft_send_data (Z.land x 0xFF) ++
  tft_send_data (Z.shiftr (x + w - 1) 8) ++
  tft_send_data (Z.land (x + w - 1) 0xFF) ++
  tft_send_cmd 0x2B ++
  tft_send_data (Z.shiftr y 8) ++
  tft_send_data (Z.land y 0xFF) ++
  tft_send_data (Z.shiftr (y + h - 1) 8) ++
  tft_send_data (Z.land (y + h - 1) 0xFF) ++
  tft_send_cmd 0x2C.

(** The body of the pixel loop of [tft_fill_rect], run [n] times. *)
Fixpoint stream_color (n : nat) (hi lo : Z) : list io :=
  match n with
  | O => []
  | S k => Transfer hi :: Transfer lo :: stream_color k hi lo
  end.

(** [tft_fill_rect], DigitalMeters.ino 99-114.  The loop bound [w * h] is
    below [2^32] for all [uint16_t] operands, so the [uint32_t] counter
    reaches it. *)
Definition tft_fill_rect (x y w h color : Z) : list io :=
  tft_set_addr_window x y w h ++
  let hi := u8 (Z.shiftr color 8) in
  let lo := u8 (Z.land color 0xFF) in
  [DigitalWrite TFT_DC HIGH; DigitalWrite TFT_CS LOW] ++
  stream_color (Z.to_nat (w * h)) hi lo ++
  [DigitalWrite TFT_CS HIGH].

(** [tft_draw_pixel], DigitalMeters.ino 116-119. *)
Definition tft_draw_pixel (x y color : Z) : list io :=
  if (x >=? TFT_WIDTH) || (y >=? TFT_HEIGHT) then []
  else tft_fill_rect x y 1 1 color.

(** ** The serial link as the controller sees it

    A transferred byte reaches the controller while chip select is low;
    the level of the data/command line says whether it is a command or a
    data byte. *)

Inductive bus :=
| Cmd (b : Z)
| Dat (b : Z)
| Wait (ms : Z).

Record pins := Pins { dc : level; cs : level }.

Definition set_pin (p : pin) (l : level) (s : pins) : pins :=
  match p with
  | TFT_DC => Pins l (cs s)
  | TFT_CS => Pins (dc s) l
  | TFT_BL => s
  end.

Fixpoint wire (s : pins) (t : list io) : list bus :=
  match t with
  | [] => []
  | DigitalWrite p l :: t' => wire (set_pin p l s) t'
  | Transfer b :: t' =>
      match cs s, dc s with
      | LOW, LOW => Cmd b :: wire s t'
      | LOW, HIGH => Dat b :: wire s t'
      | HIGH, _ => wire s t'
      end
  | Delay ms :: t' => Wait ms :: wire s t'
  end.

Fixpoint pins_after (s : pins) (t : list io) : pins :=
  match t with
  | [] => s
  | DigitalWrite p l :: t' => pins_after (set_pin p l s) t'
  | _ :: t' => pins_after s t'
  end.

(** ** Whole-screen fill and controller initialisation *)

(** [tft_fill_screen], HelloWorld.ino 324-355. *)
Definition tft_fill_screen (color : Z) : list io :=
  tft_send_cmd 0x2A ++
  tft_send_data 0x00 ++
  tft_send_data 0x00 ++
  tft_send_data (Z.land (Z.shiftr TFT_WIDTH 8) 0xFF) ++
  tft_send_data (Z.land TFT_WIDTH 0xFF) ++
  tft_send_cmd 0x2B ++
  tft_send_data 0x00 ++
  tft_send_data 0x00 ++
  tft_send_data (Z.land (Z.shiftr TFT_HEIGHT 8) 0xFF) ++
  tft_send_data (Z.land TFT_HEIGHT 0xFF) ++
  tft_send_cmd 0x2C ++
  let hi := u8 (Z.shiftr color 8) in
  let lo := u8 (Z.land color 0xFF) in
  [DigitalWrite TFT_DC HIGH; DigitalWrite TFT_CS LOW] ++
  stream_color (Z.to_nat (TFT_WIDTH * TFT_HEIGHT)) hi lo ++
  [DigitalWrite TFT_CS HIGH].

(** The register writes of [tft_init] between the SPI test and sleep-out,
    HelloWorld.ino 88-313, one command with its payload per line. *)
Definition gc9a01_registers : list io :=
  concat [
    tft_send_cmd 0xEF;
    tft_send_cmd 0xEB; tft_send_data 0x14;
    tft_send_cmd 0xFE;
    tft_send_cmd 0xEF;
    tft_send_cmd 0xEB; tft_send_data 0x14;
    tft_send_cmd 0x84; tft_send_data 0x40;
    tft_send_cmd 0x85; tft_send_data 0xFF;
    tft_send_cmd 0x86; tft_send_data 0xFF;
    tft_send_cmd 0x87; tft_send_data 0xFF;
    tft_send_cmd 0x88; tft_send_data 0x0A;
    tft_send_cmd 0x89; tft_send_data 0x21;
    tft_send_cmd 0x8A; tft_send_data 0x00;
    tft_send_cmd 0x8B; tft_send_data 0x80;
    tft_send_cmd 0x8C; tft_send_data 0x01;
    tft_send_cmd 0x8D; tft_send_data 0x01;
    tft_send_cmd 0x8E; tft_send_data 0xFF;
    tft_send_cmd 0x8F; tft_send_data 0xFF;
    tft_send_cmd 0xB6; tft_send_data 0x00; tft_send_data 0x20;
    tft_send_cmd 0x36; tft_send_data 0x08;
    tft_send_cmd 0x3A; tft_send_data 0x05;
    tft_send_cmd 0x90; tft_send_data 0x08; tft_send_data 0x08;
       tft_send_data 0x08; tft_send_data 0x08;
    tft_send_cmd 0xBD; tft_send_data 0x06;
    tft_send_cmd 0xBC; tft_send_data 0x00;
    tft_send_cmd 0xFF; tft_send_data 0x60; tft_send_data 0x01;
       tft_send_data 0x04;
    tft_send_cmd 0xC3; tft_send_data 0x13;
    tft_send_cmd 0xC4; tft_send_data 0x13;
    tft_send_cmd 0xC9; tft_send_data 0x22;
    tft_send_cmd 0xBE; tft_send_data 0x11;
    tft_send_cmd 0xE1; tft_send_data 0x10; tft_send_data 0x0E;
    tft_send_cmd 0xDF; tft_send_data 0x21; tft_send_data 0x0C;
       tft_send_data 0x02;
    tft_send_cmd 0xF0; tft_send_data 0x45; tft_send_data 0x09;
       tft_send_data 0x08; tft_send_data 0x08; tft_send_data 0x26;
       tft_send_data 0x2A;
    tft_send_cmd 0xF1; tft_send_data 0x43; tft_send_data 0x70;
       tft_send_data 0x72; tft_send_data 0x36; tft_send_data 0x37;
       tft_send_data 0x6F;
    tft_send_cmd 0xF2; tft_send_data 0x45; tft_send_data 0x09;
       tft_send_data 0x08; tft_send_data 0x08; tft_send_data 0x26;
       tft_send_data 0x2A;
    tft_send_cmd 0xF3; tft_send_data 0x43; tft_send_data 0x70;
       tft_send_data 0x72; tft_send_data 0x36; tft_send_data 0x37;
       tft_send_data 0x6F;
    tft_send_cmd 0xED; tft_send_data 0x1B; tft_send_data 0x0B;
    tft_send_cmd 0xAE; tft_send_data 0x77;
    tft_send_cmd 0xCD; tft_send_data 0x63;
    tft_send_cmd 0x70; tft_send_data 0x07; tft_send_data 0x07;
       tft_send_data 0x04; tft_send_data 0x0E; tft_send_data 0x0F;
       tft_send_data 0x09; tft_send_data 0x07; tft_send_data 0x08;
       tft_send_data 0x03;
    tft_send_cmd 0xE8; tft_send_data 0x34;
    tft_send_cmd 0x62; tft_send_data 0x18; tft_send_data 0x0D;
       tft_send_data 0x71; tft_send_data 0xED; tft_send_data 0x70;
       tft_send_data 0x70; tft_send_data 0x18; tft_send_data 0x0F;
       tft_send_data 0x71; tft_send_data 0xEF; tft_send_data 0x70;
       tft_send_data 0x70;
    tft_send_cmd 0x63; tft_send_data 0x18; tft_send_data 0x11;
       tft_send_data 0x71; tft_send_data 0xF1; tft_send_data 0x70;
       tft_send_data 0x70; tft_send_data 0x18; tft_send_data 0x13;
       tft_send_data 0x71; tft_send_data 0xF3; tft_send_data 0x70;
       tft_send_data 0x70;
    tft_send_cmd 0x64; tft_send_data 0x28; tft_send_data 0x29;
       tft_send_data 0xF1; tft_send_data 0x01; tft_send_data 0xF1;
       tft_send_data 0x00; tft_send_data 0x07;
    tft_send_cmd 0x66; tft_send_data 0x3C; tft_send_data 0x00;
       tft_send_data 0xCD; tft_send_data 0x67; tft_send_data 0x45;
       tft_send_data 0x45; tft_send_data 0x10; tft_send_data 0x00;
       tft_send_data 0x00; tft_send_data 0x00;
    tft_send_cmd 0x67; tft_send_data 0x00; tft_send_data 0x3C;
       tft_send_data 0x00; tft_send_data 0x00; tft_send_data 0x00;
       tft_send_data 0x01; tft_send_data 0x54; tft_send_data 0x10;
       tft_send_data 0x32; tft_send_data 0x98;
    tft_send_cmd 0x74; tft_send_data 0x10; tft_send_data 0x85;
       tft_send_data 0x80; tft_send_data 0x00; tft_send_data 0x00;
       tft_send_data 0x4E; tft_send_data 0x00;
    tft_send_cmd 0x98; tft_send_data 0x3E; tft_send_data 0x07;
    tft_send_cmd 0x35;
    tft_send_cmd 0x21 ].

(** [tft_init], HelloWorld.ino 39-322.  [TFT_RST] is [-1], so the reset
    branch is the [else] one; [pinMode], [Serial] and the SPI set-up
    calls write nothing to the pins or the link. *)
Definition tft_init : list io :=
  [DigitalWrite TFT_BL HIGH;
   DigitalWrite TFT_CS HIGH; DigitalWrite TFT_DC LOW;
   Delay 200;
   DigitalWrite TFT_CS LOW; Transfer 0x00; DigitalWrite TFT_CS HIGH] ++
  gc9a01_registers ++
  tft_send_cmd 0x11 ++ [Delay 120] ++
  tft_send_cmd 0x29 ++ [Delay 20].

(** [initDisplay], DigitalMeters.ino 282-307. *)
Definition initDisplay : list io :=
  [DigitalWrite TFT_CS HIGH; DigitalWrite TFT_DC LOW; Delay 200] ++
  tft_send_cmd 0xEF ++
  tft_send_cmd 0xEB ++ tft_send_data 0x14 ++
  tft_send_cmd 0xFE ++
  tft_send_cmd 0xEF ++
  tft_send_cmd 0x3A ++ tft_send_data 0x05 ++
  tft_send_cmd 0x11 ++ [Delay 120] ++
  tft_send_cmd 0x29 ++ [Delay 20].

(** ** Raster primitives

    The rasterisers are loops around [tft_draw_pixel].  Each is embedded
    once, over the action [plot] performed per pixel, and instantiated
    twice: with [tft_draw_pixel] (the bus trace) and with the recorder
    [point] (the coordinates handed to [tft_draw_pixel]).

    A C loop is run with a bound [fuel] on its iterations.  The result
    says whether the loop was left ([Returned]) or was still running when
    the bound was reached ([Running]), with the output made so far. *)

Inductive outcome (A : Type) :=
| Returned (out : list A)
| Running (out : list A).
Arguments Returned {A} out.
Arguments Running {A} out.

(** Output [l], then go on as [o]. *)
Definition emit {A} (l : list A) (o : outcome A) : outcome A :=
  match o with
  | Returned out => Returned (l ++ out)
  | Running out => Running (l ++ out)
  end.

(** The recorder: a plotted coordinate pair as it is. *)
Definition point (x y : Z) : list (Z * Z) := [(x, y)].

Section Raster.
Context {A : Type}.
Variable plot : Z -> Z -> list A.

(** The [for] loop of [tft_draw_line], DigitalMeters.ino 142-153.  [x0]
    and [y0] are [uint16_t], [err], [dx], [dy] and [ystep] are
    [int16_t]. *)
Fixpoint line_loop (fuel : nat) (steep : bool) (dx dy ystep x1 : Z)
    (x0 y0 err : Z) : outcome A :=
  match fuel with
  | O => if x0 <=? x1 then Running [] else Returned []
  | S fuel' =>
      if x0 <=? x1 then
        let px := if steep then plot y0 x0 else plot x0 y0 in
        let err1 := s16 (err - dy) in
        if err1 <? 0 then
          emit px (line_loop fuel' steep dx dy ystep x1
                     (u16 (x0 + 1)) (u16 (y0 + ystep)) (s16 (err1 + dx)))
        else
          emit px (line_loop fuel' steep dx dy ystep x1
                     (u16 (x0 + 1)) y0 err1)
      else Returned []
  end.

(** The two conditional swaps of [tft_draw_line], DigitalMeters.ino
    122-135; both go through an [int16_t temp]. *)
Definition line_ends (x0 y0 x1 y1 : Z) : bool * (Z * Z * Z * Z) :=
  let steep := Z.abs (y1 - y0) >? Z.abs (x1 - x0) in
  let '(x0, y0, x1, y1) :=
    if steep then (y0, u16 (s16 x0), y1, u16 (s16 x1))
    else (x0, y0, x1, y1) in
  let '(x0, y0, x1, y1) :=
    if x0 >? x1 then (x1, y1, u16 (s16 x0), u16 (s16 y0))
    else (x0, y0, x1, y1) in
  (steep, (x0, y0, x1, y1)).

(** [tft_draw_line], DigitalMeters.ino 121-154.  [dx / 2] is C's
    truncating division. *)
Definition draw_line (fuel : nat) (x0 y0 x1 y1 : Z) : outcome A :=
  let '(steep, (x0, y0, x1, y1)) := line_ends x0 y0 x1 y1 in
  let dx := s16 (x1 - x0) in
  let dy := s16 (Z.abs (y1 - y0)) in
  let err := s16 (Z.quot dx 2) in
  let ystep := if y0 <? y1 then 1 else -1 in
  line_loop fuel steep dx dy ystep x1 x0 y0 err.

(** The eight [tft_draw_pixel] calls of one pass of the loop of
    [tft_draw_circle], DigitalMeters.ino 169-176.  The coordinate
    expressions are [int] and convert to the [uint16_t] parameters. *)
Definition circle_octants (x0 y0 x y : Z) : list A :=
  plot (u16 (x0 + x)) (u16 (y0 + y)) ++
  plot (u16 (x0 + y)) (u16 (y0 + x)) ++
  plot (u16 (x0 - y)) (u16 (y0 + x)) ++
  plot (u16 (x0 - x)) (u16 (y0 + y)) ++
  plot (u16 (x0 - x)) (u16 (y0 - y)) ++
  plot (u16 (x0 - y)) (u16 (y0 - x)) ++
  plot (u16 (x0 + y)) (u16 (y0 - x)) ++
  plot (u16 (x0 + x)) (u16 (y0 - y)).

(** The two error updates at the end of a pass, DigitalMeters.ino
    178-186: the next [(x, y, err)]. *)
Definition circle_next (x y err : Z) : Z * Z * Z :=
  let '(y, err) := if err <=? 0 then (y + 1, err + (2 * (y + 1) + 1))
                   else (y, err) in
  let '(x, err) := if err >? 0 then (x - 1, err - (2 * (x - 1) + 1))
                   else (x, err) in
  (x, y, err).

(** The [while] loop of [tft_draw_circle], DigitalMeters.ino 168-187.
    [x], [y] and [err] are [int]; for a [uint16_t] radius [r] they stay
    within [-1, r], [0, r + 1] and [- 2 r, 2 r + 4] (see
    [circle_next_range]), so no [int] operation overflows. *)
Fixpoint circle_loop (fuel : nat) (x0 y0 x y err : Z) : outcome A :=
  match fuel with
  | O => if x >=? y then Running [] else Returned []
  | S fuel' =>
      if x >=? y then
        let '(x', y', err') := circle_next x y err in
        emit (circle_octants x0 y0 x y)
             (circle_loop fuel' x0 y0 x' y' err')
      else Returned []
  end.

(** [tft_draw_circle], DigitalMeters.ino 163-188. *)
Definition draw_circle (fuel : nat) (x0 y0 radius : Z) : outcome A :=
  circle_loop fuel x0 y0 radius 0 0.
End Raster.

Definition tft_draw_line (fuel : nat) (x0 y0 x1 y1 color : Z) : outcome io :=
  draw_line (fun x y => tft_draw_pixel x y color) fuel x0 y0 x1 y1.

Definition line_pixels (fuel : nat) (x0 y0 x1 y1 : Z) : outcome (Z * Z) :=
  draw_line point fuel x0 y0 x1 y1.

Definition tft_draw_circle (fuel : nat) (x0 y0 radius color : Z) : outcome io :=
  draw_circle (fun x y => tft_draw_pixel x y color) fuel x0 y0 radius.

Definition circle_pixels (fuel : nat) (x0 y0 radius : Z) : outcome (Z * Z) :=
  draw_circle point fuel x0 y0 radius.

(** ** Glyphs *)

(** [font5x7], DigitalMeters.ino 191-202: five column bytes per digit. *)
Definition font5x7 : list (list Z) :=
  [ [0x3E; 0x51; 0x49; 0x45; 0x3E];
    [0x00; 0x42; 0x7F; 0x40; 0x00];
    [0x42; 0x61; 0x51; 0x49; 0x46];
    [0x21; 0x41; 0x45; 0x4B; 0x31];
    [0x18; 0x14; 0x12; 0x7F; 0x10];
    [0x27; 0x45; 0x45; 0x45; 0x39];
    [0x3C; 0x4A; 0x49; 0x49; 0x30];
    [0x01; 0x71; 0x09; 0x05; 0x03];
    [0x36; 0x49; 0x49; 0x49; 0x36];
    [0x06; 0x49; 0x49; 0x29; 0x1E] ].

(** [tft_draw_digit], DigitalMeters.ino 204-215. *)
Definition tft_draw_digit (x y digit color size : Z) : list io :=
  if digit >? 9 then []
  else
    flat_map (fun col =>
      let line := nth (Z.to_nat col) (nth (Z.to_nat digit) font5x7 []) 0 in
      flat_map (fun row =>
        if Z.land line (Z.shiftl 1 row) =? 0 then []
        else tft_fill_rect (u16 (x + col * size)) (u16 (y + row * size))
                           size size color)
        [0; 1; 2; 3; 4; 5; 6])
      [0; 1; 2; 3; 4].

(** The value of a [char] of the text. *)
Definition code (c : ascii) : Z := Z.of_nat (nat_of_ascii c).

(** The loop of [tft_draw_number], DigitalMeters.ino 221-230, over the
    characters [sprintf] left in [buffer]; [pos] is the pen column. *)
Fixpoint number_loop (x y color size pos : Z) (buffer : string) : list io :=
  match buffer with
  | EmptyString => []
  | String c rest =>
      if code c =? 0 then []
      else if (code c >=? code "0") && (code c <=? code "9") then
        tft_draw_digit (u16 (x + pos * 6 * size)) y (u8 (code c - code "0"))
                       color size
        ++ number_loop x y color size (pos + 1) rest
      else if code c =? code "." then
        tft_fill_rect (u16 (x + pos * 6 * size)) (u16 (y + 6 * size))
                      size size color
        ++ number_loop x y color size (pos + 1) rest
      else number_loop x y color size pos rest
  end.

(** [tft_draw_number], DigitalMeters.ino 217-231, from the formatted
    [buffer] on: the text [sprintf] produced for [number] and [decimals]
    is the argument (a text that fits the 20 bytes of [buffer]). *)
Definition tft_draw_number (x y : Z) (buffer : string) (color size : Z)
    : list io :=
  number_loop x y color size 0 buffer.

(** The loop of [tft_draw_string], DigitalMeters.ino 236-244. *)
Fixpoint string_loop (x y color size pos : Z) (str : string) : list io :=
  match str with
  | EmptyString => []
  | String c rest =>
      if code c =? 0 then []
      else if (code c >=? code "A") && (code c <=? code "Z") then
        tft_fill_rect (u16 (x + pos * 6 * size)) y
                      (u16 (4 * size)) (u16 (7 * size)) color
        ++ string_loop x y color size (pos + 1) rest
      else if code c =? code " " then
        string_loop x y color size (pos + 1) rest
      else string_loop x y color size pos rest
  end.

(** [tft_draw_string], DigitalMeters.ino 233-245. *)
Definition tft_draw_string (x y : Z) (str : string) (color size : Z)
    : list io :=
  string_loop x y color size 0 str.

(** ** Arcs *)

(** C's [float] is IEEE binary32. *)
Definition fadd : spec_float -> spec_float -> spec_float := SFadd 24 128.
Definition float_of_int (z : Z) : spec_float := binary_normalize 24 128 z 0 false.

(** One loop after another: the second runs if the first was left. *)
Definition seq_outcome {A} (o1 o2 : outcome A) : outcome A :=
  match o1 with
  | Returned l => emit l o2
  | Running l => Running l
  end.

Section DrawArc.
(** [arc_x cx rr angle] stands for the [int] that
    [cx + rr * cos(angle * PI / 180)] converts to, and [arc_y] for the
    same with [sin]; the arithmetic of the C library is not modelled. *)
Variables arc_x arc_y : Z -> Z -> spec_float -> Z.

(** The inner loop of [drawArc], over [angle].  An output element is
    a call [gfx->drawPixel(x, y, color)]. *)
Fixpoint arc_sweep (fuel : nat) (cx cy rr color : Z)
    (endAngle angle : spec_float) : outcome (Z * Z * Z) :=
  match fuel with
  | O => if SFleb angle endAngle then Running [] else Returned []
  | S fuel' =>
      if SFleb angle endAngle then
        emit [(arc_x cx rr angle, arc_y cy rr angle, color)]
             (arc_sweep fuel' cx cy rr color endAngle
                        (fadd angle (float_of_int 2)))
      else Returned []
  end.

(** The outer loop of [drawArc], over [t], with [n] passes left. *)
Fixpoint arc_rings (n : nat) (fuel : nat) (cx cy radius color : Z)
    (startAngle endAngle : spec_float) (t : Z) : outcome (Z * Z * Z) :=
  match n with
  | O => Returned []
  | S n' =>
      seq_outcome
        (arc_sweep fuel cx cy (radius - t) color endAngle startAngle)
        (arc_rings n' fuel cx cy radius color startAngle endAngle (t + 1))
  end.

(** [drawArc], the gauge sketch 201-212; [fuel] bounds each sweep. *)
Definition drawArc (fuel : nat) (cx cy radius : Z)
    (startAngle endAngle : spec_float) (color thickness : Z)
    : outcome (Z * Z * Z) :=
  let endAngle :=
    if SFltb endAngle startAngle then fadd endAngle (float_of_int 360)
    else endAngle in
  arc_rings (Z.to_nat thickness) fuel cx cy radius color
            startAngle endAngle 0.
End DrawArc.

(** ** Rectangle outline, start-up and the colour loop *)

Definition CYAN : Z := 0x07FF.
Definition DARK_GRAY : Z := 0x4208.

(** [tft_draw_rect], DigitalMeters.ino 156-161: four lines, one after the
    other.  The corner expressions [x + w - 1] and [y + h - 1] are [int]
    and convert to the [uint16_t] parameters of [tft_draw_line]. *)
Definition draw_rect {A} (plot : Z -> Z -> list A) (fuel : nat)
    (x y w h : Z) : outcome A :=
  seq_outcome (draw_line plot fuel x y (u16 (x + w - 1)) y)
  (seq_outcome (draw_line plot fuel x (u16 (y + h - 1))
                          (u16 (x + w - 1)) (u16 (y + h - 1)))
  (seq_outcome (draw_line plot fuel x y x (u16 (y + h - 1)))
               (draw_line plot fuel (u16 (x + w - 1)) y
                          (u16 (x + w - 1)) (u16 (y + h - 1))))).

Definition tft_draw_rect (fuel : nat) (x y w h color : Z) : outcome io :=
  draw_rect (fun a b => tft_draw_pixel a b color) fuel x y w h.

Definition rect_pixels (fuel : nat) (x y w h : Z) : outcome (Z * Z) :=
  draw_rect point fuel x y w h.

(** The loop of [showStartup], DigitalMeters.ino 311-314; [i] is an
    [int]. *)
Fixpoint startup_bars (fuel : nat) (i : Z) : outcome io :=
  match fuel with
  | O => if i <? 240 then Running [] else Returned []
  | S fuel' =>
      if i <? 240 then
        emit (tft_fill_rect (u16 i) 120 10 2 CYAN ++ [Delay 20])
             (startup_bars fuel' (i + 10))
      else Returned []
  end.

(** [showStartup], DigitalMeters.ino 309-322. *)
Definition showStartup (fuel : nat) : outcome io :=
  seq_outcome (startup_bars fuel 0)
    (emit (tft_fill_rect 60 100 120 40 DARK_GRAY)
       (seq_outcome (tft_draw_rect fuel 60 100 120 40 WHITE)
          (Returned ([Delay 2000] ++
                     tft_fill_rect 0 0 TFT_WIDTH TFT_HEIGHT BLACK)))).

(** [setup], DigitalMeters.ino 247-280; the [Serial], [pinMode] and SPI
    set-up calls write nothing to the pins or the link. *)
Definition setup (fuel : nat) : outcome io :=
  emit ([Delay 1000; DigitalWrite TFT_BL HIGH] ++ initDisplay ++
        tft_fill_rect 0 0 TFT_WIDTH TFT_HEIGHT BLACK)
       (showStartup fuel).

(** [unsigned long] is 32 bits wide on the ESP32-C3. *)
Definition u32 (v : Z) : Z := v mod 4294967296.

(** The two [static] variables of [loop] in HelloWorld.ino. *)
Record color_cycle := ColorCycle { lastColorChange : Z; colorIndex : Z }.

(** One pass of [loop] of HelloWorld.ino with the palette [colors], the
    literal [period] of the [%] and the literal [interval] of the
    comparison.  [LED_BUILTIN] is [-1], so the pass starts with
    [delay(1000)]; [now] and [now'] are what the two calls of [millis()]
    return. *)
Definition loop_with (colors : list Z) (period interval : Z)
    (now now' : Z) (st : color_cycle) : list io * color_cycle :=
  if u32 (now - lastColorChange st) >? interval then
    (Delay 1000 :: tft_fill_screen (nth (Z.to_nat (colorIndex st)) colors 0),
     ColorCycle now' (u8 (Z.rem (colorIndex st + 1) period)))
  else ([Delay 1000], st).

(** [loop], HelloWorld.ino 420-454: five colours, every 100 ms. *)
Definition loop : Z -> Z -> color_cycle -> list io * color_cycle :=
  loop_with [0x0000; 0x001F; 0x07E0; 0xF800; 0xFFFF] 5 100.

(** [loop] of the commented copy, HelloWorld.ino 978-1024: eight
    colours, every 10000 ms. *)
Definition loop_documented : Z -> Z -> color_cycle -> list io * color_cycle :=
  loop_with [0x0000; 0x001F; 0x07E0; 0xF800; 0xFFFF; 0xF81F; 0xFFE0; 0x07FF]
            8 10000.

(** ** The status bar, the corner indicators and the sensor panels *)

Definition GREEN : Z := 0x07E0.
Definition GRAY : Z := 0x8410.
Definition numSensors : Z := 4.

(** [drawStatusBar], DigitalMeters.ino 401-417.  [cpu], [heap], [minutes]
    and [seconds] are the texts [sprintf] leaves in the buffer of
    [tft_draw_number] for the clock frequency, the free heap in KB and
    the two parts of the up-time. *)
Definition drawStatusBar (fuel : nat) (cpu heap minutes seconds : string)
    : outcome io :=
  emit (tft_fill_rect 0 0 TFT_WIDTH 20 DARK_GRAY)
    (seq_outcome (tft_draw_line fuel 0 20 TFT_WIDTH 20 GRAY)
       (Returned (tft_draw_number 5 6 cpu GREEN 1 ++
                  tft_draw_number 180 6 heap CYAN 1 ++
                  tft_draw_number 100 6 minutes WHITE 1 ++
                  tft_draw_number 120 6 seconds WHITE 1))).

(** The colour of [drawAnimatedElements], DigitalMeters.ino 424: the
    [uint16_t brightness] is promoted to [int], and the result converts to
    [uint16_t]. *)
Definition animColor (brightness : Z) : Z :=
  u16 (Z.lor (Z.lor (Z.shiftl (Z.shiftr brightness 3) 11)
                    (Z.shiftl (Z.shiftr brightness 2) 5))
             (Z.shiftr brightness 3)).

(** [drawAnimatedElements], DigitalMeters.ino 419-429, from [brightness]
    on: [brightness] stands for the [uint16_t] that
    [128 + 127 * sin(animationPhase)] converts to; the arithmetic of the
    C library is not modelled. *)
Definition drawAnimatedElements (brightness : Z) : list io :=
  tft_fill_rect 5 225 10 10 (animColor brightness) ++
  tft_fill_rect 225 225 10 10 (animColor brightness).

(** [drawSensorPanel], DigitalMeters.ino 324-361.  Of [sensors[index]]
    the panel uses [color] and [warning], which are arguments here, and
    [value]: [buffer] is the text [sprintf] leaves for it in
    [tft_draw_number], and [fillWidth] stands for the [uint16_t] that
    [barWidth * percent] converts to, [percent] being clamped to
    [0, 1].  The coordinate expressions are [int] and convert to the
    [uint16_t] parameters. *)
Definition drawSensorPanel (fuel : nat) (index : Z)
    (color : Z) (warning : bool) (buffer : string) (fillWidth : Z)
    (x y w h : Z) : outcome io :=
  if index >=? numSensors then Returned []
  else
    let borderColor := if warning then RED else color in
    let barWidth := u16 (w - 10) in
    let barHeight := 6 in
    let barX := u16 (x + 5) in
    let barY := u16 (y + h - 12) in
    emit (tft_fill_rect x y w h DARK_GRAY)
      (seq_outcome (tft_draw_rect fuel x y w h borderColor)
         (Returned
            (tft_fill_rect (u16 (x + w - 8)) (u16 (y + 3)) 5 5 borderColor ++
             tft_draw_number (u16 (x + 5)) (u16 (y + 10)) buffer WHITE 2 ++
             tft_fill_rect (u16 (x + 5)) (u16 (y + 35)) 20 8 color ++
             tft_fill_rect barX barY barWidth barHeight GRAY ++
             tft_fill_rect barX barY fillWidth barHeight color))).

(** ** The display surface *)

(** Modelled from the spec: the controller chip and its frame memory,
    which are hardware and not code of the sketches.  Section 3 of the
    specification describes the surface as a 240 x 240 grid of 16-bit
    pixels addressed through an active window that is set before a pixel
    stream.  The state is the window, the address counter, the command
    being served with the data bytes received for it, and the frame
    memory. *)
Record gc9a01 := Gc9a01 {
  col_start : Z; col_end : Z;
  row_start : Z; row_end : Z;
  cur_x : Z; cur_y : Z;
  reg : Z;
  args : list Z;
  gram : gmap (Z * Z) Z
}.

(** The cell [(x, y)] is on the 240 x 240 panel. *)
Definition in_panel (x y : Z) : bool :=
  (0 <=? x) && (x <? TFT_WIDTH) && (0 <=? y) && (y <? TFT_HEIGHT).

(** Modelled from the spec: a command byte starts a new command;
    memory-write (0x2C) puts the address counter on the first corner of
    the window. *)
Definition on_command (st : gc9a01) (c : Z) : gc9a01 :=
  if c =? 0x2C then
    Gc9a01 (col_start st) (col_end st) (row_start st) (row_end st)
           (col_start st) (row_start st) c [] (gram st)
  else
    Gc9a01 (col_start st) (col_end st) (row_start st) (row_end st)
           (cur_x st) (cur_y st) c [] (gram st).

(** Modelled from the spec: one pixel of a stream.  It is stored at the
    address counter, unless that is outside the panel, and the counter
    moves on through the window row by row.  The specification describes
    windows inside the panel only (section 7 leaves a fill that reaches
    beyond it undefined); the properties below read the surface after
    windows inside the panel and after streams of no pixel, never after a
    stream into a window that ends beyond the last column or row. *)
Definition store_pixel (st : gc9a01) (color : Z) : gc9a01 :=
  let g := if in_panel (cur_x st) (cur_y st)
           then <[(cur_x st, cur_y st) := color]> (gram st)
           else gram st in
  let '(x, y) :=
    if cur_x st =? col_end st then
      (col_start st,
       if cur_y st =? row_end st then row_start st else cur_y st + 1)
    else (cur_x st + 1, cur_y st) in
  Gc9a01 (col_start st) (col_end st) (row_start st) (row_end st)
         x y (reg st) [] g.

(** Modelled from the spec: a data byte.  Column-address-set (0x2A) and
    row-address-set (0x2B) take two big-endian 16-bit bounds; memory-write
    takes two bytes per pixel, high byte first; the payload of any other
    command leaves window and memory alone. *)
Definition on_data (st : gc9a01) (b : Z) : gc9a01 :=
  let keep := Gc9a01 (col_start st) (col_end st) (row_start st) (row_end st)
                     (cur_x st) (cur_y st) (reg st) (args st ++ [b])
                     (gram st) in
  if reg st =? 0x2A then
    match args st with
    | [s1; s0; e1] =>
        Gc9a01 (s1 * 256 + s0) (e1 * 256 + b) (row_start st) (row_end st)
               (cur_x st) (cur_y st) (reg st) (args st ++ [b]) (gram st)
    | _ => keep
    end
  else if reg st =? 0x2B then
    match args st with
    | [s1; s0; e1] =>
        Gc9a01 (col_start st) (col_end st) (s1 * 256 + s0) (e1 * 256 + b)
               (cur_x st) (cur_y st) (reg st) (args st ++ [b]) (gram st)
    | _ => keep
    end
  else if reg st =? 0x2C then
    match args st with
    | [hi] => store_pixel st (hi * 256 + b)
    | _ => keep
    end
  else keep.

(** Modelled from the spec: the controller's reaction to one event of
    the link. *)
Definition controller (st : gc9a01) (e : bus) : gc9a01 :=
  match e with
  | Cmd c => on_command st c
  | Dat b => on_data st b
  | Wait _ => st
  end.

(** The controller after a trace of the link. *)
Definition run (st : gc9a01) (t : list bus) : gc9a01 :=
  fold_left controller t st.


(** ** Bresenham's line, as the specification words it

    Section 4.4: transpose when the slope is steep, swap the endpoints so
    that [x0 <= x1], walk [x] from [x0] to [x1], and step [y] by [ystep]
    when the accumulated error goes below zero.  Plain integers, and a
    walk of exactly [x1 - x0 + 1] columns. *)

Fixpoint bresenham_walk (n : nat) (steep : bool) (dx dy ystep x y err : Z)
    : list (Z * Z) :=
  match n with
  | O => []
  | S n' =>
      (if steep then (y, x) else (x, y)) ::
      (if err - dy <? 0
       then bresenham_walk n' steep dx dy ystep (x + 1) (y + ystep)
                           (err - dy + dx)
       else bresenham_walk n' steep dx dy ystep (x + 1) y (err - dy))
  end.

Definition bresenham (x0 y0 x1 y1 : Z) : list (Z * Z) :=
  let steep := Z.abs (x1 - x0) <? Z.abs (y1 - y0) in
  let '(a0, b0, a1, b1) :=
    if steep then (y0, x0, y1, x1) else (x0, y0, x1, y1) in
  let '(a0, b0, a1, b1) :=
    if a1 <? a0 then (a1, b1, a0, b0) else (a0, b0, a1, b1) in
  let dx := a1 - a0 in
  let dy := Z.abs (b1 - b0) in
  bresenham_walk (Z.to_nat (dx + 1)) steep dx dy
                 (if b0 <? b1 then 1 else -1) a0 b0 (dx / 2).

(** ** Vocabulary of the statements *)

(** Two-byte big-endian encoding of a coordinate, as the low sixteen bits
    of the integer. *)
Definition be16 (v : Z) : list bus := [Dat ((v / 256) mod 256); Dat (v mod 256)].

(** One pixel on the link: the colour, high byte first. *)
Definition pixel (color : Z) : list bus := [Dat (color / 256); Dat (color mod 256)].

(** The addressing commands of a fill: column window, row window,
    memory-write. *)
Definition addr_window (x y w h : Z) : list bus :=
  Cmd 0x2A :: be16 x ++ be16 (x + w - 1) ++
  Cmd 0x2B :: be16 y ++ be16 (y + h - 1) ++ [Cmd 0x2C].

(** Every occurrence of command [c] is directly followed by a delay of at
    least [ms] milliseconds. *)
Definition followed_by_delay (c ms : Z) (t : list bus) : Prop :=
  forall pre post, t = pre ++ Cmd c :: post ->
    exists d rest, post = Wait d :: rest /\ ms <= d.

(** Command [a] is issued, command [b] is issued, and every [b] comes
    after an [a]. *)
Definition precedes (a b : Z) (t : list bus) : Prop :=
  In (Cmd a) t /\ In (Cmd b) t /\
  forall pre post, t = pre ++ Cmd b :: post -> In (Cmd a) pre.

(** Boolean checks of the two properties, for evaluation on a trace. *)
Fixpoint delay_after (c ms : Z) (t : list bus) : bool :=
  match t with
  | [] => true
  | Cmd b :: rest =>
      (if b =? c
       then match rest with Wait d :: _ => ms <=? d | _ => false end
       else true) && delay_after c ms rest
  | _ :: rest => delay_after c ms rest
  end.

Fixpoint issued (c : Z) (t : list bus) : bool :=
  match t with
  | [] => false
  | Cmd b :: rest => (b =? c) || issued c rest
  | _ :: rest => issued c rest
  end.

Fixpoint after_first (a b : Z) (seen : bool) (t : list bus) : bool :=
  match t with
  | [] => true
  | Cmd c :: rest =>
      (if c =? b then seen else true) &&
      after_first a b (seen || (c =? a)) rest
  | _ :: rest => after_first a b seen rest
  end.

Definition init_checked (t : list bus) : bool :=
  delay_after 0x11 120 t && delay_after 0x29 20 t &&
  issued 0x11 t && issued 0x29 t && after_first 0x11 0x29 false t.

Definition init_ordered (t : list bus) : Prop :=
  followed_by_delay 0x11 120 t /\ followed_by_delay 0x29 20 t /\
  precedes 0x11 0x29 t.

(** [n] pixels of one colour stored one after the other. *)
Fixpoint paint (n : nat) (st : gc9a01) (color : Z) : gc9a01 :=
  match n with
  | O => st
  | S k => store_pixel (paint k st color) color
  end.

(** The cells of the panel that the first [n] pixels of a stream reach
    when the window is [sc..ec] by [sp..ep]. *)
Definition painted (sc ec sp ep n x y : Z) : bool :=
  in_panel x y && (sc <=? x) && (x <=? ec) && (sp <=? y) && (y <=? ep) &&
  ((y - sp) * (ec - sc + 1) + (x - sc) <? n).

(** A panel whose frame memory holds nothing yet. *)
Definition power_on : gc9a01 := Gc9a01 0 0 0 0 0 0 0 [] ∅.

(** Replaying recorded coordinates through a plotting action. *)
Definition replay {A} (plot : Z -> Z -> list A) (o : outcome (Z * Z))
    : outcome A :=
  match o with
  | Returned l => Returned (flat_map (fun p => plot (fst p) (snd p)) l)
  | Running l => Running (flat_map (fun p => plot (fst p) (snd p)) l)
  end.

(** The eight offsets from the centre plotted in one pass. *)
Definition octant_offsets (x y : Z) : list (Z * Z) :=
  [(x, y); (y, x); (- y, x); (- x, y); (- x, - y); (- y, - x); (y, - x);
   (x, - y)].

(** Plotting an offset from the centre [(x0, y0)]: the [int] sum converts
    to the [uint16_t] parameter. *)
Definition plot_offset {A} (plot : Z -> Z -> list A) (x0 y0 : Z)
    (o : Z * Z) : list A :=
  plot (u16 (x0 + fst o)) (u16 (y0 + snd o)).

(** The pixel of the integer point at offset [o] from [(cx, cy)], if that
    point is in the panel. *)
Definition pixel_at (cx cy c : Z) (o : Z * Z) : list io :=
  if in_panel (cx + fst o) (cy + snd o)
  then tft_fill_rect (cx + fst o) (cy + snd o) 1 1 c else [].

(** The characters the two renderers draw or advance on: digits, the
    decimal point, upper-case letters and the space. *)
Definition supported (c : ascii) : bool :=
  ((code "0" <=? code c) && (code c <=? code "9")) ||
  (code c =? code ".") ||
  ((code "A" <=? code c) && (code c <=? code "Z")) ||
  (code c =? code " ").

(** The loop invariant of the line walk at column [x0], towards the end
    point [(x1, y1)]: the error is within one column's worth, it equals
    what the remaining columns and rows leave of the initial half, and the
    rows left to [y1] are between 0 and [dy]. *)
Definition walk_inv (dx dy ystep x1 y1 x0 y0 err : Z) : Prop :=
  0 <= x0 <= x1 /\
  0 <= err < Z.max dx 1 /\
  err = dx / 2 + (x1 - x0) * dy - (y1 - y0) * ystep * dx /\
  0 <= (y1 - y0) * ystep <= dy.

(** ** Vocabulary of the further properties *)

(** The cell [(a, b)] is in the rectangle at [(x, y)] of [w] by [h]. *)
Definition inside (x y w h a b : Z) : bool :=
  (x <=? a) && (a <? x + w) && (y <=? b) && (b <? y + h).

(** A rectangle on the panel with at least one cell. *)
Definition on_panel (x y w h : Z) : Prop :=
  0 <= x /\ 0 <= y /\ 1 <= w /\ 1 <= h /\
  x + w <= TFT_WIDTH /\ y + h <= TFT_HEIGHT.

(** A list of rectangles [(x, y, w, h)] filled one after the other with
    one colour. *)
Definition fills (c : Z) (rs : list (Z * Z * Z * Z)) : list io :=
  flat_map (fun r => tft_fill_rect (fst (fst (fst r))) (snd (fst (fst r)))
                                   (snd (fst r)) (snd r) c) rs.

(** The cell [(a, b)] is in one of the rectangles. *)
Definition covered (rs : list (Z * Z * Z * Z)) (a b : Z) : bool :=
  existsb (fun r => inside (fst (fst (fst r))) (snd (fst (fst r)))
                           (snd (fst r)) (snd r) a b) rs.

(** The trace writes no cell outside the rectangle at [(x, y)] of [w] by
    [h]. *)
Definition untouched_outside (x y w h : Z) (t : list io) : Prop :=
  forall s st a b, inside x y w h a b = false ->
    gram (run st (wire s t)) !! (a, b) = gram st !! (a, b).

(** Bit [row] of column byte [col] of the glyph of [digit], as
    [tft_draw_digit] tests it. *)
Definition font_bit (digit col row : Z) : bool :=
  negb (Z.land (nth (Z.to_nat col) (nth (Z.to_nat digit) font5x7 []) 0)
               (Z.shiftl 1 row) =? 0).

(** The blocks [tft_draw_digit] fills: one of [size] by [size] for every
    set bit. *)
Definition glyph_rects (x y digit size : Z) : list (Z * Z * Z * Z) :=
  flat_map (fun col =>
    flat_map (fun row =>
      if font_bit digit col row
      then [(x + col * size, y + row * size, size, size)] else [])
      [0; 1; 2; 3; 4; 5; 6])
    [0; 1; 2; 3; 4].

(** The number of pen advances of [tft_draw_number] over a buffer: its
    digits and decimal points up to the terminating NUL. *)
Fixpoint number_cells (buffer : string) : Z :=
  match buffer with
  | EmptyString => 0
  | String c rest =>
      if code c =? 0 then 0
      else if (code c >=? code "0") && (code c <=? code "9")
      then 1 + number_cells rest
      else if code c =? code "." then 1 + number_cells rest
      else number_cells rest
  end.

(** The number of pen advances of [tft_draw_string] over a text: its
    upper-case letters and spaces up to the terminating NUL. *)
Fixpoint string_cells (str : string) : Z :=
  match str with
  | EmptyString => 0
  | String c rest =>
      if code c =? 0 then 0
      else if (code c >=? code "A") && (code c <=? code "Z")
      then 1 + string_cells rest
      else if code c =? code " " then 1 + string_cells rest
      else string_cells rest
  end.

(** What [tft_draw_string] sees of a character: the terminator (0), an
    upper-case letter (1), a space (2) or anything else (3). *)
Definition char_class (c : ascii) : Z :=
  if code c =? 0 then 0
  else if (code c >=? code "A") && (code c <=? code "Z") then 1
  else if code c =? code " " then 2
  else 3.

Fixpoint char_classes (str : string) : list Z :=
  match str with
  | EmptyString => []
  | String c rest => char_class c :: char_classes rest
  end.

(** A rectangle [(x, y, w, h)] of a list is on the panel. *)
Definition rect_on_panel (r : Z * Z * Z * Z) : Prop :=
  on_panel (fst (fst (fst r))) (snd (fst (fst r))) (snd (fst r)) (snd r).

(** Every transfer of the trace happens while chip select is low. *)
Fixpoint selected (s : pins) (t : list io) : bool :=
  match t with
  | [] => true
  | DigitalWrite p l :: t' => selected (set_pin p l s) t'
  | Transfer _ :: t' =>
      match cs s with LOW => selected s t' | HIGH => false end
  | Delay _ :: t' => selected s t'
  end.

(** A trace that keeps the chip-select discipline: from any pin state no
    byte is transferred with chip select high, and chip select is high
    again afterwards if it was high before. *)
Definition framed (t : list io) : Prop :=
  forall s, selected s t = true /\
            (cs s = HIGH -> cs (pins_after s t) = HIGH).

(** What a run has put out, whether or not it was left. *)
Definition trace_of {A} (o : outcome A) : list A :=
  match o with Returned out => out | Running out => out end.

(** Two pixels that touch, side by side or corner to corner. *)
Definition adjacent (p q : Z * Z) : Prop :=
  Z.abs (fst q - fst p) <= 1 /\ Z.abs (snd q - snd p) <= 1 /\ p <> q.

(** Every pixel of the list touches the next. *)
Fixpoint chained (l : list (Z * Z)) : Prop :=
  match l with
  | [] => True
  | p :: rest =>
      match rest with
      | [] => True
      | q :: _ => adjacent p q /\ chained rest
      end
  end.

(** The cell [(a, b)] is on the outline of the rectangle at [(x, y)] of
    [w] by [h]. *)
Definition on_outline (x y w h a b : Z) : bool :=
  inside x y w h a b &&
  ((a =? x) || (a =? x + w - 1) || (b =? y) || (b =? y + h - 1)).

(** The cell [(a, b)] is one of the pixels of the list. *)
Definition among (l : list (Z * Z)) (a b : Z) : bool :=
  existsb (fun p => (fst p =? a) && (snd p =? b)) l.

(** The offset [(a, b)] lies on the ring of radius [r]: it is not outside
    the circle, and its outer diagonal neighbour is. *)
Definition on_ring (r a b : Z) : Prop :=
  a * a + b * b <= r * r /\
  r * r < (Z.abs a + 1) * (Z.abs a + 1) + (Z.abs b + 1) * (Z.abs b + 1).

(** The angles one sweep of [drawArc] visits: the loop over [angle]
    without the pixel. *)
Fixpoint sweep_angles (fuel : nat) (endAngle angle : spec_float)
    : outcome spec_float :=
  match fuel with
  | O => if SFleb angle endAngle then Running [] else Returned []
  | S fuel' =>
      if SFleb angle endAngle then
        emit [angle] (sweep_angles fuel' endAngle
                        (fadd angle (float_of_int 2)))
      else Returned []
  end.

(** The values of [(x, y, err)] at the loop heads of [tft_draw_circle]:
    at the first test of [x >= y] and after every pass of the body, up to
    [fuel] passes. *)
Fixpoint circle_heads (fuel : nat) (x y err : Z) : list (Z * Z * Z) :=
  (x, y, err) ::
  match fuel with
  | O => []
  | S fuel' =>
      if x >=? y then
        let '(x', y', err') := circle_next x y err in
        circle_heads fuel' x' y' err'
      else []
  end.

(** * Properties *)

(** ** Machine integers *)

Lemma u16_id v : is_u16 v -> u16 v = v.
Proof. unfold is_u16, u16. intros H. apply Z.mod_small. lia. Qed.

Lemma u16_range v : is_u16 (u16 v).
Proof. unfold is_u16, u16. apply Z.mod_pos_bound. lia. Qed.

Lemma s16_id v : -32768 <= v < 32768 -> s16 v = v.
Proof. unfold s16. intros H. rewrite Z.mod_small; lia. Qed.

Lemma u16_s16 v : is_u16 v -> u16 (s16 v) = v.
Proof.
  unfold is_u16, u16, s16. intros H.
  destruct (Z_lt_le_dec v 32768) as [Hlt | Hge].
  - rewrite (Z.mod_small (v + 32768)) by lia. rewrite Z.mod_small; lia.
  - replace (v + 32768) with (v - 32768 + 1 * 65536) by lia.
    rewrite Z.mod_add by lia. rewrite (Z.mod_small (v - 32768)) by lia.
    replace (v - 32768 - 32768) with (v + (-1) * 65536) by lia.
    rewrite Z.mod_add by lia. apply Z.mod_small. lia.
Qed.

Lemma high_byte v : u8 (Z.shiftr v 8) = (v / 256) mod 256.
Proof. unfold u8. now rewrite Z.shiftr_div_pow2 by lia. Qed.

Lemma low_byte v : u8 (Z.land v 0xFF) = v mod 256.
Proof.
  unfold u8. change 0xFF with (Z.ones 8). rewrite Z.land_ones by lia.
  change (2 ^ 8) with 256. apply Z.mod_mod. lia.
Qed.

(** ** The link *)

Lemma wire_app s t1 t2 :
  wire s (t1 ++ t2) = wire s t1 ++ wire (pins_after s t1) t2.
Proof.
  revert s. induction t1 as [| e t1 IH]; intros s; [reflexivity |].
  destruct e as [p l | b | ms]; simpl.
  - apply IH.
  - destruct (cs s), (dc s); simpl; now rewrite IH.
  - now rewrite IH.
Qed.

Lemma wire_stream n hi lo t :
  wire (Pins HIGH LOW) (stream_color n hi lo ++ t) =
  concat (replicate n [Dat hi; Dat lo]) ++ wire (Pins HIGH LOW) t.
Proof. induction n as [| n IH]; simpl; [reflexivity | now rewrite IH]. Qed.

Lemma wire_fill_rect s x y w h color :
  wire s (tft_fill_rect x y w h color) =
  addr_window x y w h ++
  concat (replicate (Z.to_nat (w * h))
            [Dat ((color / 256) mod 256); Dat (color mod 256)]).
Proof.
  unfold tft_fill_rect, tft_set_addr_window, tft_send_cmd, tft_send_data.
  rewrite !high_byte, !low_byte. cbn [app wire set_pin cs dc].
  change (u8 0x2A) with 0x2A. change (u8 0x2B) with 0x2B.
  change (u8 0x2C) with 0x2C.
  rewrite wire_stream. cbn [wire app]. rewrite app_nil_r.
  unfold addr_window, be16. reflexivity.
Qed.

Lemma run_app st t1 t2 : run st (t1 ++ t2) = run (run st t1) t2.
Proof. unfold run. apply fold_left_app. Qed.

(** What the controller holds once the addressing commands of a fill are
    in: the window bounds as sent, the address counter at its corner. *)
Lemma run_addr_window st x y w h :
  is_u16 x -> is_u16 y ->
  run st (addr_window x y w h) =
  Gc9a01 x (u16 (x + w - 1)) y (u16 (y + h - 1)) x y 0x2C [] (gram st).
Proof.
  intros Hx Hy. unfold addr_window, be16, run. cbn.
  assert (E : forall v, v / 256 mod 256 * 256 + v mod 256 = u16 v).
  { intros v. unfold u16.
    change 65536 with (256 * 256). rewrite Z.rem_mul_r by lia. lia. }
  rewrite !E. now rewrite (u16_id x), (u16_id y).
Qed.

(** C1.  An in-bounds [tft_fill_rect(x, y, w, h, color)] puts on the link,
    in this order: column-address-set with [x] and [x + w - 1], row-
    address-set with [y] and [y + h - 1] (each as two bytes, high byte
    first), memory-write (0x2C), and then exactly [w * h] pixels, each the
    two bytes of [color], high byte first.  The controller then holds the
    window it was sent: [x .. x + w - 1] by [y .. y + h - 1] (an end of
    -1, for an empty fill at column or row 0, is sent as its low sixteen
    bits). *)
Theorem fill_rect_in_bounds (s : pins) (st : gc9a01) (x y w h color : Z) :
  is_u16 x -> is_u16 y -> is_u16 w -> is_u16 h -> is_u16 color ->
  x + w <= TFT_WIDTH -> y + h <= TFT_HEIGHT ->
  wire s (tft_fill_rect x y w h color) =
    addr_window x y w h ++ concat (replicate (Z.to_nat (w * h)) (pixel color))
  /\ length (concat (replicate (Z.to_nat (w * h)) (pixel color)))
     = (2 * Z.to_nat (w * h))%nat
  /\ let st' := run st (addr_window x y w h) in
     col_start st' = x /\ col_end st' = u16 (x + w - 1) /\
     row_start st' = y /\ row_end st' = u16 (y + h - 1) /\
     (1 <= x + w -> col_end st' = x + w - 1) /\
     (1 <= y + h -> row_end st' = y + h - 1).
Proof.
  intros Hx Hy Hw Hh Hc Hxw Hyh. split; [| split].
  - rewrite wire_fill_rect. unfold pixel.
    rewrite (Z.mod_small (color / 256)); [reflexivity |].
    unfold is_u16 in Hc. split; [apply Z.div_pos; lia |].
    apply Z.div_lt_upper_bound; lia.
  - induction (Z.to_nat (w * h)) as [| n IH]; simpl; [reflexivity |].
    rewrite IH. lia.
  - rewrite run_addr_window by assumption. cbn.
    unfold is_u16, TFT_WIDTH, TFT_HEIGHT in *.
    repeat split; try reflexivity; intros; apply u16_id; unfold is_u16; lia.
Qed.

Lemma fill_rect_in_bounds_witness :
  wire (Pins LOW HIGH) (tft_fill_rect 10 20 3 2 RED) =
    addr_window 10 20 3 2 ++ concat (replicate 6%nat (pixel RED)).
Proof.
  apply (fill_rect_in_bounds (Pins LOW HIGH)
           (Gc9a01 0 0 0 0 0 0 0 [] ∅) 10 20 3 2 RED);
    unfold is_u16, RED, TFT_WIDTH, TFT_HEIGHT; lia.
Defined.

(** ** Single pixels *)

Lemma draw_pixel_out x y c :
  TFT_WIDTH <= x \/ TFT_HEIGHT <= y -> tft_draw_pixel x y c = [].
Proof.
  intros H. unfold tft_draw_pixel.
  destruct (x >=? TFT_WIDTH) eqn:Ex; [reflexivity |].
  destruct (y >=? TFT_HEIGHT) eqn:Ey; [reflexivity |]. lia.
Qed.

Lemma draw_pixel_in x y c :
  x < TFT_WIDTH -> y < TFT_HEIGHT ->
  tft_draw_pixel x y c = tft_fill_rect x y 1 1 c.
Proof.
  intros Hx Hy. unfold tft_draw_pixel.
  destruct (x >=? TFT_WIDTH) eqn:Ex; [lia |].
  destruct (y >=? TFT_HEIGHT) eqn:Ey; [lia | reflexivity].
Qed.

(** C3.  [tft_draw_pixel(x, y, c)] with [x >= 240] or [y >= 240] performs
    no pin write, transfer or delay at all, so nothing reaches the
    controller and the surface is as before; with [x < 240] and [y < 240]
    it is [tft_fill_rect(x, y, 1, 1, c)]. *)
Theorem draw_pixel_clips (x y c : Z) :
  is_u16 x -> is_u16 y ->
  (TFT_WIDTH <= x \/ TFT_HEIGHT <= y ->
     tft_draw_pixel x y c = [] /\
     forall s st, run st (wire s (tft_draw_pixel x y c)) = st) /\
  (x < TFT_WIDTH /\ y < TFT_HEIGHT ->
     tft_draw_pixel x y c = tft_fill_rect x y 1 1 c).
Proof.
  intros _ _. split.
  - intros H. rewrite (draw_pixel_out x y c H). split; reflexivity.
  - intros [Hx Hy]. now apply draw_pixel_in.
Qed.

Lemma draw_pixel_clips_witness :
  (tft_draw_pixel 240 7 RED = [] /\
   forall s st, run st (wire s (tft_draw_pixel 240 7 RED)) = st) /\
  tft_draw_pixel 239 7 RED = tft_fill_rect 239 7 1 1 RED.
Proof.
  assert (U : forall v, 0 <= v < 65536 -> is_u16 v) by (intros v H; exact H).
  split.
  - apply (draw_pixel_clips 240 7 RED); [apply U; lia | apply U; lia |].
    left. unfold TFT_WIDTH. lia.
  - apply (draw_pixel_clips 239 7 RED); [apply U; lia | apply U; lia |].
    unfold TFT_WIDTH, TFT_HEIGHT. lia.
Defined.

(** ** Controller initialisation *)

Lemma delay_after_sound c ms t :
  delay_after c ms t = true -> followed_by_delay c ms t.
Proof.
  induction t as [| e t IH]; intros H pre post E.
  - destruct pre; discriminate E.
  - destruct pre as [| e' pre].
    + simpl in E. injection E as -> ->. simpl in H.
      rewrite Z.eqb_refl in H. apply andb_prop in H as [H _].
      destruct post as [| [b | b | d] rest]; try discriminate H.
      exists d, rest. split; [reflexivity | lia].
    + simpl in E. injection E as -> ->.
      apply (IH) with (pre := pre) (post := post); [| reflexivity].
      destruct e' as [b | b | d]; simpl in H; try exact H.
      now apply andb_prop in H as [_ H].
Qed.

Lemma issued_sound c t : issued c t = true -> In (Cmd c) t.
Proof.
  induction t as [| e t IH]; simpl; [discriminate |].
  destruct e as [b | b | d]; auto.
  intros H. apply orb_prop in H as [H | H]; [| auto].
  left. f_equal. lia.
Qed.

Lemma after_first_sound a b seen t :
  after_first a b seen t = true ->
  forall pre post, t = pre ++ Cmd b :: post -> seen = true \/ In (Cmd a) pre.
Proof.
  revert seen. induction t as [| e t IH]; intros seen H pre post E.
  - destruct pre; discriminate E.
  - destruct pre as [| e' pre].
    + simpl in E. injection E as -> ->. simpl in H.
      rewrite Z.eqb_refl in H. apply andb_prop in H as [H _]. now left.
    + simpl in E. injection E as -> ->.
      destruct e' as [c | c | d]; simpl in H.
      * apply andb_prop in H as [_ H].
        destruct (IH _ H pre post eq_refl) as [S | S]; [| right; now right].
        apply orb_prop in S as [S | S]; [now left |].
        right. left. f_equal. lia.
      * destruct (IH _ H pre post eq_refl); [now left | right; now right].
      * destruct (IH _ H pre post eq_refl); [now left | right; now right].
Qed.

Lemma init_checked_sound t : init_checked t = true -> init_ordered t.
Proof.
  unfold init_checked. intros H.
  repeat (apply andb_prop in H as [H ?]).
  repeat split; auto using delay_after_sound, issued_sound.
  intros pre post E.
  destruct (after_first_sound 0x11 0x29 false t) with (pre := pre) (post := post);
    auto; discriminate.
Qed.

(** C9.  In the trace of [tft_init] and in the trace of [initDisplay],
    whatever the pins were before: sleep-out (0x11) is directly followed
    by a delay of at least 120 ms, display-on (0x29) is directly followed
    by a delay of at least 20 ms, both commands are issued, and 0x11 comes
    before 0x29. *)
Theorem init_delays (s : pins) :
  init_ordered (wire s tft_init) /\ init_ordered (wire s initDisplay).
Proof.
  destruct s as [[] []]; split; apply init_checked_sound; vm_compute;
    reflexivity.
Qed.

(** The two commands close both sequences, with the delays the sketches
    ask for. *)
Lemma init_tail (s : pins) :
  (exists pre, wire s tft_init =
     pre ++ [Cmd 0x11; Wait 120; Cmd 0x29; Wait 20]) /\
  (exists pre, wire s initDisplay =
     pre ++ [Cmd 0x11; Wait 120; Cmd 0x29; Wait 20]).
Proof.
  split.
  - exists (wire s (firstn 735 tft_init)).
    destruct s as [[] []]; vm_compute; reflexivity.
  - exists (wire s (firstn 31 initDisplay)).
    destruct s as [[] []]; vm_compute; reflexivity.
Qed.

(** ** Pixel streams on the surface *)

Lemma run_pixel st hi lo :
  reg st = 0x2C -> args st = [] ->
  run st [Dat hi; Dat lo] = store_pixel st (hi * 256 + lo).
Proof.
  destruct st as [sc ec sp ep cx cy r a g]. simpl. intros -> ->.
  reflexivity.
Qed.

Lemma store_pixel_mode st c :
  reg (store_pixel st c) = reg st /\ args (store_pixel st c) = [].
Proof.
  unfold store_pixel. destruct (cur_x st =? col_end st); split; reflexivity.
Qed.

Lemma paint_mode n st c :
  args st = [] ->
  reg (paint n st c) = reg st /\ args (paint n st c) = [].
Proof.
  intros Ha. induction n as [| n [IH1 IH2]]; simpl; [now split |].
  destruct (store_pixel_mode (paint n st c) c) as [E1 E2].
  split; congruence.
Qed.

Lemma run_stream n st hi lo :
  reg st = 0x2C -> args st = [] ->
  run st (concat (replicate n [Dat hi; Dat lo])) = paint n st (hi * 256 + lo).
Proof.
  intros Hr Ha. induction n as [| n IH]; [reflexivity |].
  rewrite replicate_S_end, concat_app, run_app, IH.
  change (concat [[Dat hi; Dat lo]]) with [Dat hi; Dat lo].
  destruct (paint_mode n st (hi * 256 + lo) Ha) as [E1 E2].
  apply run_pixel; congruence.
Qed.

Lemma painted_spec sc ec sp ep n x y :
  painted sc ec sp ep n x y = true <->
  (0 <= x < TFT_WIDTH /\ 0 <= y < TFT_HEIGHT) /\
  (sc <= x <= ec /\ sp <= y <= ep) /\
  (y - sp) * (ec - sc + 1) + (x - sc) < n.
Proof.
  unfold painted, in_panel.
  rewrite !andb_true_iff, !Z.leb_le, !Z.ltb_lt. lia.
Qed.

Lemma in_panel_spec x y :
  in_panel x y = true <-> 0 <= x < TFT_WIDTH /\ 0 <= y < TFT_HEIGHT.
Proof.
  unfold in_panel. rewrite !andb_true_iff, !Z.leb_le, !Z.ltb_lt. lia.
Qed.

Section Window.
Variables sc ec sp ep : Z.
Hypothesis Hcol : sc <= ec.

Let W := ec - sc + 1.
Let H := ep - sp + 1.

Lemma painted_next_other n q k x y :
  n = q * W + k -> 0 <= k < W ->
  (sc + k, sp + q) <> (x, y) ->
  painted sc ec sp ep (n + 1) x y = painted sc ec sp ep n x y.
Proof.
  subst W H. intros En Hk Hne. apply eq_true_iff_eq.
  rewrite !painted_spec. split; [| lia].
  intros (Hp & Hw & Hi). repeat split; try lia.
  destruct (Z.eq_dec ((y - sp) * (ec - sc + 1) + (x - sc)) n) as [E | E];
    [| lia].
  exfalso. apply Hne.
  assert (y - sp = q) by nia.
  assert (x - sc = k) by nia.
  f_equal; lia.
Qed.

Lemma painted_next_here n q k :
  n = q * W + k -> 0 <= k < W -> 0 <= q -> n < W * H ->
  painted sc ec sp ep (n + 1) (sc + k) (sp + q) = in_panel (sc + k) (sp + q)
  /\ painted sc ec sp ep n (sc + k) (sp + q) = false.
Proof.
  subst W H. intros En Hk Hq Hn. split.
  - apply eq_true_iff_eq. rewrite painted_spec, in_panel_spec.
    split; [tauto |]. intros Hp. repeat split; try lia; nia.
  - apply not_true_is_false. rewrite painted_spec. nia.
Qed.

(** The state after [n] pixels of a stream that started at the corner
    of the window: the window is as set, the address counter is [n]
    cells on in row-major order, and exactly the panel cells among the
    first [n] of the window hold the colour. *)
Lemma paint_window r a g c n :
  Z.of_nat n <= W * H ->
  let st' := paint n (Gc9a01 sc ec sp ep sc sp r a g) c in
  col_start st' = sc /\ col_end st' = ec /\
  row_start st' = sp /\ row_end st' = ep /\
  (Z.of_nat n < W * H ->
     exists q k, Z.of_nat n = q * W + k /\ 0 <= k < W /\ 0 <= q /\
                 cur_x st' = sc + k /\ cur_y st' = sp + q) /\
  forall x y, gram st' !! (x, y) =
    if painted sc ec sp ep (Z.of_nat n) x y then Some c else g !! (x, y).
Proof.
  induction n as [| n IH]; intros Hn st'.
  - subst st' W H. simpl. repeat split; try reflexivity.
    + intros _. exists 0, 0. lia.
    + intros x y. change (Z.of_nat 0) with 0.
      destruct (painted sc ec sp ep 0 x y) eqn:P; [| reflexivity].
      apply painted_spec in P. nia.
  - subst st'. simpl paint.
    destruct IH as (E1 & E2 & E3 & E4 & Hcur & Hg); [lia |].
    destruct Hcur as (q & k & En & Hk & Hq & Ex & Ey); [lia |].
    set (st := paint n (Gc9a01 sc ec sp ep sc sp r a g) c) in *.
    assert (Hstep : forall x y,
      (if in_panel (sc + k) (sp + q)
       then <[(sc + k, sp + q) := c]> (gram st) else gram st) !! (x, y) =
      if painted sc ec sp ep (Z.of_nat (S n)) x y
      then Some c else g !! (x, y)).
    { intros x y. rewrite Nat2Z.inj_succ, <- Z.add_1_r.
      destruct (decide ((sc + k, sp + q) = (x, y))) as [Heq | Hne].
      - injection Heq as <- <-.
        destruct (painted_next_here (Z.of_nat n) q k) as [P1 P0];
          try assumption; [lia |].
        rewrite P1. destruct (in_panel (sc + k) (sp + q)).
        + apply lookup_insert_eq.
        + now rewrite Hg, P0.
      - rewrite (painted_next_other (Z.of_nat n) q k) by assumption.
        destruct (in_panel (sc + k) (sp + q));
          [rewrite lookup_insert_ne by assumption |]; apply Hg. }
    unfold store_pixel. rewrite E1, E2, E3, E4, Ex, Ey.
    destruct (Z.eqb_spec (sc + k) ec) as [Hend | Hmid];
      cbn [col_start col_end row_start row_end cur_x cur_y gram];
      (split; [reflexivity |]); (split; [reflexivity |]);
      (split; [reflexivity |]); (split; [reflexivity |]);
      (split; [| exact Hstep]); intros Hlt; subst W H.
    + exists (q + 1), 0.
      destruct (Z.eqb_spec (sp + q) ep) as [Hlast | Hnot]; [nia |].
      repeat split; lia.
    + exists q, (k + 1). repeat split; lia.
Qed.
End Window.

(** ** Fills on the surface *)

Lemma join_bytes c : is_u16 c -> (c / 256) mod 256 * 256 + c mod 256 = c.
Proof.
  unfold is_u16. intros Hc.
  rewrite (Z.mod_small (c / 256)).
  - pose proof (Z.div_mod c 256). lia.
  - split; [apply Z.div_pos; lia | apply Z.div_lt_upper_bound; lia].
Qed.

(** An in-bounds [tft_fill_rect] with at least one pixel sets every cell
    of its rectangle to the colour and leaves every other cell alone. *)
Lemma fill_rect_surface s st x y w h c :
  is_u16 x -> is_u16 y -> is_u16 c -> 1 <= w -> 1 <= h ->
  x + w <= TFT_WIDTH -> y + h <= TFT_HEIGHT ->
  forall a b,
    gram (run st (wire s (tft_fill_rect x y w h c))) !! (a, b) =
    if (x <=? a) && (a <? x + w) && (y <=? b) && (b <? y + h)
    then Some c else gram st !! (a, b).
Proof.
  intros Hx Hy Hc Hw Hh Hxw Hyh a b.
  rewrite wire_fill_rect, run_app, run_addr_window by assumption.
  assert (Ux : is_u16 (x + w - 1))
    by (unfold is_u16, TFT_WIDTH in *; lia).
  assert (Uy : is_u16 (y + h - 1))
    by (unfold is_u16, TFT_HEIGHT in *; lia).
  rewrite (u16_id _ Ux), (u16_id _ Uy).
  rewrite run_stream by reflexivity. rewrite (join_bytes c Hc).
  destruct (paint_window x (x + w - 1) y (y + h - 1) ltac:(lia)
              0x2C [] (gram st) c (Z.to_nat (w * h)))
    as (_ & _ & _ & _ & _ & Hg); [nia |].
  rewrite Hg, Z2Nat.id by nia.
  match goal with
  | |- (if ?p then _ else _) = (if ?q then _ else _) =>
      replace p with q; [reflexivity |]
  end.
  apply eq_true_iff_eq.
  rewrite painted_spec, !andb_true_iff, !Z.leb_le, !Z.ltb_lt.
  unfold is_u16, TFT_WIDTH, TFT_HEIGHT in *.
  split; [| lia]. intros Hin. repeat split; try lia. nia.
Qed.

(** [tft_fill_screen] on the link: the addressing that
    [tft_fill_rect(0, 0, 241, 241, color)] would send (both window ends
    are 240), then 240 * 240 pixels. *)
Lemma wire_fill_screen s color :
  wire s (tft_fill_screen color) =
  addr_window 0 0 241 241 ++
  concat (replicate (Z.to_nat (TFT_WIDTH * TFT_HEIGHT))
            [Dat ((color / 256) mod 256); Dat (color mod 256)]).
Proof.
  unfold tft_fill_screen, tft_send_cmd, tft_send_data.
  generalize (Z.to_nat (TFT_WIDTH * TFT_HEIGHT)). intros n.
  rewrite !high_byte, !low_byte. cbn [app wire set_pin cs dc].
  rewrite wire_stream. cbn [wire app]. rewrite app_nil_r. reflexivity.
Qed.

Lemma init_keeps_surface s st :
  gram (run st (wire s tft_init)) = gram st /\
  gram (run st (wire s initDisplay)) = gram st.
Proof.
  destruct st as [sc ec sp ep cx cy r a g].
  destruct s as [[] []]; split; vm_compute; reflexivity.
Qed.




(** ** Rasterisers: pixels and bus trace *)

Lemma replay_emit {A} (plot : Z -> Z -> list A) l o :
  replay plot (emit l o) =
  emit (flat_map (fun p => plot (fst p) (snd p)) l) (replay plot o).
Proof. destruct o; simpl; now rewrite flat_map_app. Qed.

Lemma line_loop_replay {A} (plot : Z -> Z -> list A)
    fuel steep dx dy ystep x1 x0 y0 err :
  line_loop plot fuel steep dx dy ystep x1 x0 y0 err =
  replay plot (line_loop point fuel steep dx dy ystep x1 x0 y0 err).
Proof.
  revert x0 y0 err. induction fuel as [| fuel IH]; intros x0 y0 err; simpl.
  - destruct (x0 <=? x1); reflexivity.
  - destruct (x0 <=? x1); [| reflexivity].
    destruct (s16 (err - dy) <? 0); rewrite replay_emit, <- IH;
      destruct steep; simpl; now rewrite app_nil_r.
Qed.

Lemma draw_line_replay {A} (plot : Z -> Z -> list A) fuel x0 y0 x1 y1 :
  draw_line plot fuel x0 y0 x1 y1 = replay plot (line_pixels fuel x0 y0 x1 y1).
Proof.
  unfold line_pixels, draw_line.
  destruct (line_ends x0 y0 x1 y1) as [steep [[[a0 b0] a1] b1]].
  apply line_loop_replay.
Qed.

(** ** Lines *)

Lemma line_loop_done {A} (plot : Z -> Z -> list A)
    fuel steep dx dy ystep x1 x0 y0 err :
  x1 < x0 -> line_loop plot fuel steep dx dy ystep x1 x0 y0 err = Returned [].
Proof.
  intros Hlt. destruct fuel; simpl;
    destruct (Z.leb_spec x0 x1); try lia; reflexivity.
Qed.

Lemma walk_inv_row dx dy ystep x1 y1 x0 y0 err :
  ystep = 1 \/ ystep = -1 ->
  0 <= y1 < 65536 -> 0 <= y1 - ystep * dy < 65536 ->
  walk_inv dx dy ystep x1 y1 x0 y0 err -> is_u16 y0.
Proof.
  unfold walk_inv, is_u16. intros Hstep Hy1 Hy0 (_ & _ & _ & Hr).
  destruct Hstep as [-> | ->]; lia.
Qed.

Lemma walk_inv_next dx dy ystep x1 y1 x0 y0 err :
  0 <= dy <= dx -> ystep = 1 \/ ystep = -1 ->
  walk_inv dx dy ystep x1 y1 x0 y0 err -> x0 < x1 ->
  if err - dy <? 0
  then walk_inv dx dy ystep x1 y1 (x0 + 1) (y0 + ystep) (err - dy + dx)
  else walk_inv dx dy ystep x1 y1 (x0 + 1) y0 (err - dy).
Proof.
  unfold walk_inv. intros Hdy Hstep (Hx & He & Eq & Hr) Hlt.
  assert (Hh : 0 <= dx / 2 /\ 2 * (dx / 2) <= dx).
  { pose proof (Z.div_mod dx 2 ltac:(lia)).
    pose proof (Z.mod_pos_bound dx 2 ltac:(lia)). lia. }
  assert (Hss : ystep * ystep = 1) by (destruct Hstep as [-> | ->]; lia).
  destruct (Z.ltb_spec (err - dy) 0) as [Hneg | Hpos].
  - assert (Hdx0 : 0 < dx) by lia.
    replace ((y1 - (y0 + ystep)) * ystep)
      with ((y1 - y0) * ystep - 1) by nia.
    set (ry := (y1 - y0) * ystep) in *.
    repeat split; try lia; try nia.
  - repeat split; try lia; try nia.
Qed.

(** Under the invariant the loop of the code, with its 16-bit stores,
    leaves after the remaining [S n] columns and has plotted the walk of
    the specification. *)
Lemma line_loop_walk steep dx dy ystep x1 y1 n :
  0 <= dy <= dx -> dx < 32768 -> ystep = 1 \/ ystep = -1 ->
  0 <= x1 < 65535 -> 0 <= y1 < 65536 -> 0 <= y1 - ystep * dy < 65536 ->
  forall fuel x0 y0 err,
    (S n <= fuel)%nat -> Z.of_nat (S n) = x1 - x0 + 1 ->
    walk_inv dx dy ystep x1 y1 x0 y0 err ->
    line_loop point fuel steep dx dy ystep x1 x0 y0 err =
    Returned (bresenham_walk (S n) steep dx dy ystep x0 y0 err).
Proof.
  intros Hdy Hdx Hstep Hx1 Hy1 Hy0.
  induction n as [| n IH]; intros fuel x0 y0 err Hf Hn Hinv;
    (destruct fuel as [| fuel]; [lia |]);
    pose proof Hinv as (Hx & He & Eq & Hr);
    cbn [line_loop bresenham_walk];
    (destruct (Z.leb_spec x0 x1); [| lia]);
    rewrite (s16_id (err - dy)) by lia;
    rewrite (u16_id (x0 + 1)) by (unfold is_u16; lia).
  - (* last column *)
    rewrite !(line_loop_done point) by lia.
    destruct (err - dy <? 0), steep; reflexivity.
  - pose proof (walk_inv_next dx dy ystep x1 y1 x0 y0 err Hdy Hstep Hinv
                  ltac:(lia)) as Hnext.
    destruct (Z.ltb_spec (err - dy) 0) as [Hneg | Hpos].
    + rewrite (u16_id (y0 + ystep))
        by (eapply (walk_inv_row dx dy ystep x1 y1); eauto).
      rewrite (s16_id (err - dy + dx)) by lia.
      rewrite (IH fuel (x0 + 1) (y0 + ystep) (err - dy + dx));
        [destruct steep; reflexivity | lia | lia | exact Hnext].
    + rewrite (IH fuel (x0 + 1) y0 (err - dy));
        [destruct steep; reflexivity | lia | lia | exact Hnext].
Qed.

(** The invariant holds at the first column of normalised endpoints. *)
Lemma walk_inv_start a0 b0 a1 b1 :
  0 <= a0 <= a1 -> Z.abs (b1 - b0) <= a1 - a0 ->
  walk_inv (a1 - a0) (Z.abs (b1 - b0)) (if b0 <? b1 then 1 else -1)
           a1 b1 a0 b0 ((a1 - a0) / 2).
Proof.
  intros Ha Hslope.
  assert (Hh : 0 <= (a1 - a0) / 2 /\ 2 * ((a1 - a0) / 2) <= a1 - a0).
  { pose proof (Z.div_mod (a1 - a0) 2 ltac:(lia)).
    pose proof (Z.mod_pos_bound (a1 - a0) 2 ltac:(lia)). lia. }
  unfold walk_inv.
  destruct (Z.ltb_spec b0 b1); repeat split; try lia;
    (rewrite ?Z.abs_eq, ?Z.abs_neq by lia; ring).
Qed.

(** The walk from normalised endpoints ([a0 <= a1], slope at most one). *)
Lemma line_loop_normal steep fuel a0 b0 a1 b1 :
  0 <= a0 <= a1 -> a1 < 32768 -> 0 <= b0 < 32768 -> 0 <= b1 < 32768 ->
  Z.abs (b1 - b0) <= a1 - a0 ->
  (Z.to_nat (a1 - a0 + 1) <= fuel)%nat ->
  line_loop point fuel steep (s16 (a1 - a0)) (s16 (Z.abs (b1 - b0)))
            (if b0 <? b1 then 1 else -1) a1 a0 b0
            (s16 (Z.quot (s16 (a1 - a0)) 2)) =
  Returned (bresenham_walk (Z.to_nat (a1 - a0 + 1)) steep (a1 - a0)
              (Z.abs (b1 - b0)) (if b0 <? b1 then 1 else -1) a0 b0
              ((a1 - a0) / 2)).
Proof.
  intros Ha Ha1 Hb0 Hb1 Hslope Hfuel.
  assert (Hh : 0 <= (a1 - a0) / 2 /\ 2 * ((a1 - a0) / 2) <= a1 - a0).
  { pose proof (Z.div_mod (a1 - a0) 2 ltac:(lia)).
    pose proof (Z.mod_pos_bound (a1 - a0) 2 ltac:(lia)). lia. }
  rewrite (s16_id (a1 - a0)) by lia.
  rewrite (s16_id (Z.abs (b1 - b0))) by lia.
  rewrite Z.quot_div_nonneg by lia.
  rewrite (s16_id ((a1 - a0) / 2)) by lia.
  replace (Z.to_nat (a1 - a0 + 1)) with (S (Z.to_nat (a1 - a0))) in * by lia.
  apply line_loop_walk with (y1 := b1); try lia.
  - destruct (b0 <? b1); auto.
  - destruct (Z.ltb_spec b0 b1); lia.
  - now apply walk_inv_start.
Qed.

(** In the panel the recorded coordinates are the walk of the
    specification, and 240 passes of the loop are enough. *)
Lemma line_pixels_in_panel fuel x0 y0 x1 y1 :
  0 <= x0 < TFT_WIDTH -> 0 <= y0 < TFT_HEIGHT ->
  0 <= x1 < TFT_WIDTH -> 0 <= y1 < TFT_HEIGHT ->
  (240 <= fuel)%nat ->
  line_pixels fuel x0 y0 x1 y1 = Returned (bresenham x0 y0 x1 y1).
Proof.
  unfold TFT_WIDTH, TFT_HEIGHT. intros Hx0 Hy0 Hx1 Hy1 Hfuel.
  unfold line_pixels, draw_line, line_ends, bresenham.
  rewrite Z.gtb_ltb.
  destruct (Z.ltb_spec (Z.abs (x1 - x0)) (Z.abs (y1 - y0))) as [Hs | Hs];
    cbv beta iota zeta; rewrite Z.gtb_ltb;
    rewrite ?(u16_s16 x0), ?(u16_s16 y0), ?(u16_s16 x1), ?(u16_s16 y1)
      by (unfold is_u16; lia).
  - destruct (Z.ltb_spec y1 y0) as [Hsw | Hsw]; cbv beta iota zeta;
      rewrite ?(u16_s16 x0), ?(u16_s16 y0), ?(u16_s16 x1), ?(u16_s16 y1)
        by (unfold is_u16; lia);
      apply line_loop_normal; lia.
  - destruct (Z.ltb_spec x1 x0) as [Hsw | Hsw]; cbv beta iota zeta;
      rewrite ?(u16_s16 x0), ?(u16_s16 y0), ?(u16_s16 x1), ?(u16_s16 y1)
        by (unfold is_u16; lia);
      apply line_loop_normal; lia.
Qed.

(** The walk stays between its endpoints. *)
Lemma bresenham_walk_in_panel steep dx dy ystep x1 y1 n : forall x0 y0 err,
  0 <= dy <= dx -> dx < 32768 -> ystep = 1 \/ ystep = -1 ->
  0 <= x1 < TFT_WIDTH -> 0 <= y1 < TFT_HEIGHT ->
  0 <= y1 - ystep * dy < TFT_HEIGHT ->
  Z.of_nat (S n) = x1 - x0 + 1 ->
  walk_inv dx dy ystep x1 y1 x0 y0 err ->
  Forall (fun p => in_panel (fst p) (snd p) = true)
         (bresenham_walk (S n) steep dx dy ystep x0 y0 err).
Proof.
  unfold TFT_WIDTH, TFT_HEIGHT.
  induction n as [| n IH]; intros x0 y0 err Hdy Hdx Hst Hx1 Hy1 Hy0 Hn Hinv;
    pose proof Hinv as (Hx & He & Eq & Hr);
    assert (Hy : 0 <= y0 < 240) by (destruct Hst as [-> | ->]; lia);
    assert (Hp : in_panel (fst (if steep then (y0, x0) else (x0, y0)))
                          (snd (if steep then (y0, x0) else (x0, y0))) = true)
      by (destruct steep; apply in_panel_spec;
          unfold TFT_WIDTH, TFT_HEIGHT; cbn [fst snd]; lia).
  - cbn [bresenham_walk]. constructor; [exact Hp |].
    destruct (err - dy <? 0); constructor.
  - assert (Hnext := walk_inv_next dx dy ystep x1 y1 x0 y0 err Hdy Hst Hinv
                       ltac:(lia)).
    change (bresenham_walk (S (S n)) steep dx dy ystep x0 y0 err)
      with ((if steep then (y0, x0) else (x0, y0)) ::
            (if err - dy <? 0
             then bresenham_walk (S n) steep dx dy ystep (x0 + 1)
                                 (y0 + ystep) (err - dy + dx)
             else bresenham_walk (S n) steep dx dy ystep (x0 + 1) y0
                                 (err - dy))).
    constructor; [exact Hp |].
    destruct (err - dy <? 0); apply IH; auto; lia.
Qed.

Lemma bresenham_in_panel x0 y0 x1 y1 :
  0 <= x0 < TFT_WIDTH -> 0 <= y0 < TFT_HEIGHT ->
  0 <= x1 < TFT_WIDTH -> 0 <= y1 < TFT_HEIGHT ->
  Forall (fun p => in_panel (fst p) (snd p) = true) (bresenham x0 y0 x1 y1).
Proof.
  unfold TFT_WIDTH, TFT_HEIGHT. intros Hx0 Hy0 Hx1 Hy1.
  assert (N : forall steep a0 b0 a1 b1,
    0 <= a0 <= a1 -> a1 < 240 -> 0 <= b0 < 240 -> 0 <= b1 < 240 ->
    Z.abs (b1 - b0) <= a1 - a0 ->
    Forall (fun p => in_panel (fst p) (snd p) = true)
      (bresenham_walk (Z.to_nat (a1 - a0 + 1)) steep (a1 - a0)
         (Z.abs (b1 - b0)) (if b0 <? b1 then 1 else -1) a0 b0
         ((a1 - a0) / 2))).
  { intros steep a0 b0 a1 b1 Ha Ha1 Hb0 Hb1 Hslope.
    replace (Z.to_nat (a1 - a0 + 1)) with (S (Z.to_nat (a1 - a0))) by lia.
    apply bresenham_walk_in_panel with (x1 := a1) (y1 := b1);
      unfold TFT_WIDTH, TFT_HEIGHT; try lia.
    - destruct (b0 <? b1); auto.
    - destruct (Z.ltb_spec b0 b1); lia.
    - now apply walk_inv_start. }
  unfold bresenham.
  destruct (Z.ltb_spec (Z.abs (x1 - x0)) (Z.abs (y1 - y0))) as [Hs | Hs].
  - destruct (Z.ltb_spec y1 y0); apply N; lia.
  - destruct (Z.ltb_spec x1 x0); apply N; lia.
Qed.

(** Pixels in the panel are written, each as a one-pixel fill. *)
Lemma draw_pixels_in_panel color (l : list (Z * Z)) :
  Forall (fun p => in_panel (fst p) (snd p) = true) l ->
  flat_map (fun p => tft_draw_pixel (fst p) (snd p) color) l =
  flat_map (fun p => tft_fill_rect (fst p) (snd p) 1 1 color) l.
Proof.
  induction 1 as [| p l Hp _ IH]; [reflexivity |].
  cbn [flat_map]. rewrite IH. f_equal.
  apply in_panel_spec in Hp. apply draw_pixel_in; lia.
Qed.

(** C4.  For endpoints inside the panel, [tft_draw_line] leaves its loop
    (240 passes are enough) and the coordinates it hands to
    [tft_draw_pixel] are, in order, those of the integer-error Bresenham
    walk of the specification; all of them are in the panel, so its bus
    trace is that walk written pixel by pixel. *)
Theorem draw_line_is_bresenham (fuel : nat) (x0 y0 x1 y1 color : Z) :
  0 <= x0 < TFT_WIDTH -> 0 <= y0 < TFT_HEIGHT ->
  0 <= x1 < TFT_WIDTH -> 0 <= y1 < TFT_HEIGHT ->
  (240 <= fuel)%nat ->
  line_pixels fuel x0 y0 x1 y1 = Returned (bresenham x0 y0 x1 y1) /\
  tft_draw_line fuel x0 y0 x1 y1 color =
    Returned (flat_map (fun p => tft_fill_rect (fst p) (snd p) 1 1 color)
                (bresenham x0 y0 x1 y1)).
Proof.
  intros Hx0 Hy0 Hx1 Hy1 Hfuel.
  pose proof (line_pixels_in_panel fuel x0 y0 x1 y1 Hx0 Hy0 Hx1 Hy1 Hfuel)
    as E.
  split; [exact E |].
  unfold tft_draw_line. rewrite draw_line_replay, E. cbn [replay]. f_equal.
  apply draw_pixels_in_panel. now apply bresenham_in_panel.
Qed.

Lemma draw_line_is_bresenham_witness :
  line_pixels 240 3 200 17 5 = Returned (bresenham 3 200 17 5).
Proof.
  apply (draw_line_is_bresenham 240 3 200 17 5 RED);
    unfold TFT_WIDTH, TFT_HEIGHT; lia.
Defined.

(** The scenario of the specification: [drawLine(0, 0, 4, 0, RED)] is
    five pixel writes, at [y = 0] and [x = 0 .. 4]. *)
Example draw_line_five_pixels :
  line_pixels 240 0 0 4 0 = Returned [(0, 0); (1, 0); (2, 0); (3, 0); (4, 0)]
  /\ tft_draw_line 240 0 0 4 0 RED =
     Returned (tft_fill_rect 0 0 1 1 RED ++ tft_fill_rect 1 0 1 1 RED ++
               tft_fill_rect 2 0 1 1 RED ++ tft_fill_rect 3 0 1 1 RED ++
               tft_fill_rect 4 0 1 1 RED).
Proof. split; vm_compute; reflexivity. Qed.

(** The two conditional swaps bring [(a, b)] and [(b, a)] to the same
    start and end, so the whole run is the same, for any endpoints. *)
Lemma draw_line_swap {A} (plot : Z -> Z -> list A) fuel x0 y0 x1 y1 :
  is_u16 x0 -> is_u16 y0 -> is_u16 x1 -> is_u16 y1 ->
  draw_line plot fuel x0 y0 x1 y1 = draw_line plot fuel x1 y1 x0 y0.
Proof.
  intros Hx0 Hy0 Hx1 Hy1. unfold draw_line, line_ends.
  replace (Z.abs (y0 - y1)) with (Z.abs (y1 - y0)) by lia.
  replace (Z.abs (x0 - x1)) with (Z.abs (x1 - x0)) by lia.
  rewrite !(u16_s16 x0), !(u16_s16 x1) by assumption.
  destruct (Z.gtb_spec (Z.abs (y1 - y0)) (Z.abs (x1 - x0))) as [Hs | Hs];
    cbv beta iota zeta.
  - destruct (Z.gtb_spec y0 y1), (Z.gtb_spec y1 y0); cbv beta iota zeta;
      rewrite ?(u16_s16 x0), ?(u16_s16 y0), ?(u16_s16 x1), ?(u16_s16 y1)
        by assumption; try reflexivity; lia.
  - destruct (Z.gtb_spec x0 x1), (Z.gtb_spec x1 x0); cbv beta iota zeta;
      rewrite ?(u16_s16 x0), ?(u16_s16 y0), ?(u16_s16 x1), ?(u16_s16 y1)
        by assumption; try reflexivity; try lia.
    assert (x0 = x1) by lia. assert (y0 = y1) by lia. subst. reflexivity.
Qed.

(** C5.  For endpoints [a] and [b] inside the panel and any colour,
    [tft_draw_line] from [a] to [b] and from [b] to [a] hand the same
    coordinates to [tft_draw_pixel] and put the same trace on the bus;
    with 240 passes allowed both runs leave the loop. *)
Theorem draw_line_symmetric (fuel : nat) (x0 y0 x1 y1 color : Z) :
  0 <= x0 < TFT_WIDTH -> 0 <= y0 < TFT_HEIGHT ->
  0 <= x1 < TFT_WIDTH -> 0 <= y1 < TFT_HEIGHT ->
  line_pixels fuel x0 y0 x1 y1 = line_pixels fuel x1 y1 x0 y0 /\
  tft_draw_line fuel x0 y0 x1 y1 color = tft_draw_line fuel x1 y1 x0 y0 color /\
  ((240 <= fuel)%nat ->
   exists pts, line_pixels fuel x0 y0 x1 y1 = Returned pts /\
               line_pixels fuel x1 y1 x0 y0 = Returned pts).
Proof.
  unfold TFT_WIDTH, TFT_HEIGHT. intros Hx0 Hy0 Hx1 Hy1.
  assert (E : forall A (plot : Z -> Z -> list A),
            draw_line plot fuel x0 y0 x1 y1 = draw_line plot fuel x1 y1 x0 y0)
    by (intros; apply draw_line_swap; unfold is_u16; lia).
  split; [apply E | split; [apply E |]].
  intros Hfuel. exists (bresenham x0 y0 x1 y1).
  unfold line_pixels. rewrite <- E.
  split; apply line_pixels_in_panel; unfold TFT_WIDTH, TFT_HEIGHT; lia.
Qed.

Lemma draw_line_symmetric_witness :
  line_pixels 240 3 200 17 5 = line_pixels 240 17 5 3 200.
Proof.
  apply (draw_line_symmetric 240 3 200 17 5 RED);
    unfold TFT_WIDTH, TFT_HEIGHT; lia.
Defined.

(** ** Circles *)

Lemma circle_octants_offsets {A} (plot : Z -> Z -> list A) x0 y0 x y :
  circle_octants plot x0 y0 x y =
  flat_map (plot_offset plot x0 y0) (octant_offsets x y).
Proof.
  unfold circle_octants, octant_offsets, plot_offset. simpl.
  now rewrite app_nil_r.
Qed.

Lemma circle_next_progress x y err :
  let '(x', y', err') := circle_next x y err in
  y <= y' <= y + 1 /\ x - 1 <= x' <= x /\ x' - y' < x - y.
Proof.
  unfold circle_next.
  destruct (Z.leb_spec err 0) as [H1 | H1].
  - destruct (err + (2 * (y + 1) + 1) >? 0); lia.
  - destruct (Z.gtb_spec err 0); lia.
Qed.

(** One pass from a loop head with [0 <= y <= x <= r] and
    [- 2 x <= err <= 2 y] (as at the first head, [x = r], [y = 0],
    [err = 0]): the new values and the intermediate error are bounded by
    the radius, and the next head, if the loop goes on, satisfies the same
    bounds.  For [r <= 65535] everything is far inside the range of
    [int]. *)
Lemma circle_next_range r x y err :
  0 <= y <= x -> x <= r -> - 2 * x <= err <= 2 * y ->
  let '(x', y', err') := circle_next x y err in
  (-1 <= x' <= r /\ 0 <= y' <= r + 1 /\ - 2 * r <= err' <= 2 * r + 4) /\
  - 2 * r <= (if err <=? 0 then err + (2 * (y + 1) + 1) else err)
          <= 2 * r + 3 /\
  (y' <= x' -> - 2 * x' <= err' <= 2 * y').
Proof.
  intros Hy Hx He. unfold circle_next.
  destruct (Z.leb_spec err 0) as [H1 | H1].
  - destruct (Z.gtb_spec (err + (2 * (y + 1) + 1)) 0); lia.
  - destruct (Z.gtb_spec err 0); lia.
Qed.

Lemma octant_offsets_rotate x y a b :
  In (a, b) (octant_offsets x y) -> In (- b, a) (octant_offsets x y).
Proof.
  unfold octant_offsets. simpl.
  intros H.
  repeat (destruct H as [H | H]; [injection H as <- <- |]);
    try contradiction;
    repeat (first [left; f_equal; lia | right]).
Qed.

Lemma octant_offsets_bound r x y a b :
  0 <= y <= x -> x <= r ->
  In (a, b) (octant_offsets x y) -> - r <= a <= r /\ - r <= b <= r.
Proof.
  unfold octant_offsets. simpl. intros Hy Hx H.
  repeat (destruct H as [H | H]; [injection H as <- <-; lia |]).
  contradiction.
Qed.

(** The run of the circle loop from a state [0 <= y], [x <= r], with more
    passes allowed than [x - y]: the loop is left, and what it plotted is
    a list of offsets within [r] of the centre that is closed under the
    quarter turn [(a, b) |-> (- b, a)]. *)
Lemma circle_loop_offsets x0 y0 r fuel : forall x y err,
  0 <= y -> x <= r -> x - y < Z.of_nat fuel ->
  exists offs : list (Z * Z),
    (forall a b, In (a, b) offs -> - r <= a <= r /\ - r <= b <= r) /\
    (forall a b, In (a, b) offs -> In (- b, a) offs) /\
    forall A (plot : Z -> Z -> list A),
      circle_loop plot fuel x0 y0 x y err =
      Returned (flat_map (plot_offset plot x0 y0) offs).
Proof.
  induction fuel as [| fuel IH]; intros x y err Hy Hx Hf.
  - exists []. repeat split; try contradiction.
    intros A plot. simpl. destruct (Z.geb_spec x y); [lia | reflexivity].
  - destruct (Z.geb_spec x y) as [Hge | Hlt].
    + pose proof (circle_next_progress x y err) as Hn.
      destruct (circle_next x y err) as [[x' y'] err'] eqn:En.
      destruct Hn as (Hy' & Hx' & Hd).
      destruct (IH x' y' err') as (offs & Hb & Hr & Hrun); try lia.
      exists (octant_offsets x y ++ offs). repeat split.
      * apply in_app_or in H as [H | H];
          [eapply (octant_offsets_bound r x y) in H | apply Hb in H]; lia.
      * apply in_app_or in H as [H | H];
          [eapply (octant_offsets_bound r x y) in H | apply Hb in H]; lia.
      * apply in_app_or in H as [H | H];
          [eapply (octant_offsets_bound r x y) in H | apply Hb in H]; lia.
      * apply in_app_or in H as [H | H];
          [eapply (octant_offsets_bound r x y) in H | apply Hb in H]; lia.
      * intros a b H. apply in_or_app.
        apply in_app_or in H as [H | H];
          [left; now apply octant_offsets_rotate | right; now apply Hr].
      * intros A plot. cbn [circle_loop].
        destruct (Z.geb_spec x y); [| lia]. rewrite En.
        rewrite Hrun, circle_octants_offsets. cbn [emit].
        now rewrite flat_map_app.
    + exists []. repeat split; try contradiction.
      intros A plot. simpl. destruct (Z.geb_spec x y); [lia | reflexivity].
Qed.

(** A coordinate computed in [int] between -65296 and 65535 and handed
    to [tft_draw_pixel]: the pixel is written when the integer point is in
    the panel, at that point, and clipped otherwise. *)
Lemma draw_pixel_wrapped v w c :
  -65296 <= v <= 65535 -> -65296 <= w <= 65535 ->
  tft_draw_pixel (u16 v) (u16 w) c =
  if in_panel v w then tft_fill_rect v w 1 1 c else [].
Proof.
  intros Hv Hw.
  assert (U : forall z, -65296 <= z <= 65535 ->
            (0 <= z /\ u16 z = z) \/ (z < 0 /\ 240 <= u16 z)).
  { intros z Hz. destruct (Z_lt_le_dec z 0) as [Hn | Hp].
    - right. split; [lia |]. unfold u16.
      replace z with (z + 65536 + (-1) * 65536) by lia.
      rewrite Z.mod_add by lia. rewrite Z.mod_small; lia.
    - left. split; [lia |]. apply u16_id. unfold is_u16. lia. }
  destruct (in_panel v w) eqn:P.
  - apply in_panel_spec in P. unfold TFT_WIDTH, TFT_HEIGHT in P.
    destruct (U v Hv) as [[_ ->] | ?]; [| lia].
    destruct (U w Hw) as [[_ ->] | ?]; [| lia].
    apply draw_pixel_in; unfold TFT_WIDTH, TFT_HEIGHT; lia.
  - apply draw_pixel_out. unfold TFT_WIDTH, TFT_HEIGHT.
    assert (N : ~ (0 <= v < 240 /\ 0 <= w < 240)).
    { intros Q. apply (proj2 (in_panel_spec v w)) in Q. congruence. }
    destruct (U v Hv) as [[? Ev] | [? ?]]; [| lia].
    destruct (U w Hw) as [[? Ew] | [? ?]]; [| lia].
    rewrite Ev, Ew. lia.
Qed.

Lemma plot_offsets_clip cx cy r c (offs : list (Z * Z)) :
  0 <= cx < TFT_WIDTH -> 0 <= cy < TFT_HEIGHT -> 0 <= r <= 65296 ->
  (forall a b, In (a, b) offs -> - r <= a <= r /\ - r <= b <= r) ->
  flat_map (plot_offset (fun x y => tft_draw_pixel x y c) cx cy) offs =
  flat_map (pixel_at cx cy c) offs.
Proof.
  unfold TFT_WIDTH, TFT_HEIGHT. intros Hcx Hcy Hr.
  induction offs as [| [a b] offs IH]; intros Hb; [reflexivity |].
  cbn [flat_map]. rewrite IH by (intros; apply Hb; now right).
  f_equal. unfold plot_offset, pixel_at. cbn [fst snd].
  destruct (Hb a b (or_introl eq_refl)).
  apply draw_pixel_wrapped; lia.
Qed.

Lemma plot_offsets_points cx cy (offs : list (Z * Z)) :
  flat_map (plot_offset point cx cy) offs =
  map (fun o => (u16 (cx + fst o), u16 (cy + snd o))) offs.
Proof. induction offs as [| o offs IH]; simpl; now rewrite ?IH. Qed.

(** C6.  When the whole circle is inside the panel, [tft_draw_circle]
    leaves its loop (more passes than the radius are enough), every
    coordinate it hands to [tft_draw_pixel] is written as a one-pixel
    fill, and the set of those pixels is closed under the quarter turn
    about the centre: with offset [(a, b)] it has offset [(- b, a)]. *)
Theorem draw_circle_quarter_turn (fuel : nat) (cx cy r color : Z) :
  0 <= r -> r <= cx -> cx + r < TFT_WIDTH ->
  r <= cy -> cy + r < TFT_HEIGHT ->
  (Z.to_nat r < fuel)%nat ->
  exists pts : list (Z * Z),
    circle_pixels fuel cx cy r = Returned pts /\
    tft_draw_circle fuel cx cy r color =
      Returned (flat_map (fun p => tft_fill_rect (fst p) (snd p) 1 1 color)
                  pts) /\
    forall a b, In (cx + a, cy + b) pts -> In (cx - b, cy + a) pts.
Proof.
  unfold TFT_WIDTH, TFT_HEIGHT. intros Hr Hx0 Hx1 Hy0 Hy1 Hfuel.
  destruct (circle_loop_offsets cx cy r fuel r 0 0)
    as (offs & Hb & Hrot & Hrun); try lia.
  assert (Hid : map (fun o => (u16 (cx + fst o), u16 (cy + snd o))) offs =
                map (fun o => (cx + fst o, cy + snd o)) offs).
  { apply map_ext_in. intros [a b] Hin. destruct (Hb a b Hin). cbn [fst snd].
    rewrite !u16_id by (unfold is_u16; lia). reflexivity. }
  exists (map (fun o => (cx + fst o, cy + snd o)) offs). split; [| split].
  - unfold circle_pixels, draw_circle.
    now rewrite Hrun, plot_offsets_points, Hid.
  - unfold tft_draw_circle, draw_circle. rewrite Hrun. f_equal.
    rewrite (plot_offsets_clip cx cy r color offs)
      by (unfold TFT_WIDTH, TFT_HEIGHT; auto; lia).
    clear Hid Hrun Hrot.
    induction offs as [| [a b] offs IH]; [reflexivity |].
    cbn [flat_map map]. rewrite IH by (intros; apply Hb; now right).
    f_equal. unfold pixel_at. cbn [fst snd].
    destruct (Hb a b (or_introl eq_refl)).
    replace (in_panel (cx + a) (cy + b)) with true; [reflexivity |].
    symmetry. apply in_panel_spec. unfold TFT_WIDTH, TFT_HEIGHT. lia.
  - intros a b Hin. apply in_map_iff in Hin as ([a' b'] & E & Hin).
    cbn [fst snd] in E. injection E as Ea Eb.
    assert (a' = a) by lia. assert (b' = b) by lia. subst a' b'.
    apply in_map_iff. exists (- b, a). split; [reflexivity |].
    now apply Hrot.
Qed.

Lemma draw_circle_quarter_turn_witness :
  exists pts : list (Z * Z),
    circle_pixels 21 120 120 20 = Returned pts /\
    tft_draw_circle 21 120 120 20 RED =
      Returned (flat_map (fun p => tft_fill_rect (fst p) (snd p) 1 1 RED)
                  pts) /\
    forall a b, In (120 + a, 120 + b) pts -> In (120 - b, 120 + a) pts.
Proof.
  apply (draw_circle_quarter_turn 21 120 120 20 RED);
    unfold TFT_WIDTH, TFT_HEIGHT; lia.
Defined.

(** ** Coordinates below zero *)

(** Plotting offsets whose integer points have coordinates from -65296
    to 65535: the pixels of the points in the panel are written, at those
    points, and nothing else. *)
Lemma plot_offsets_clip_wide cx cy c (offs : list (Z * Z)) :
  (forall a b, In (a, b) offs ->
     -65296 <= cx + a <= 65535 /\ -65296 <= cy + b <= 65535) ->
  flat_map (plot_offset (fun x y => tft_draw_pixel x y c) cx cy) offs =
  flat_map (pixel_at cx cy c) offs.
Proof.
  induction offs as [| [a b] offs IH]; intros Hb; [reflexivity |].
  cbn [flat_map]. rewrite IH by (intros; apply Hb; now right).
  f_equal. unfold plot_offset, pixel_at. cbn [fst snd].
  destruct (Hb a b (or_introl eq_refl)).
  apply draw_pixel_wrapped; lia.
Qed.

(** C10, as the code has it.  A coordinate computed as an integer from
    -65296 to -1 converts to a [uint16_t] of at least 240, and
    [tft_draw_pixel] with it in either position performs nothing.  So a
    [tft_draw_circle] all of whose computed coordinates are from -65296 to
    65535 (the centre less the radius is at least -65296 and the centre
    plus the radius at most 65535, in both directions; the centre may be
    on the panel or beside it) hands to [tft_draw_pixel] the converted
    coordinates of integer offsets within the radius, and writes exactly
    those whose integer point is in the panel, at that point. *)
Theorem negative_coordinates_clip :
  (forall v w c, -65296 <= v <= -1 -> is_u16 w ->
     240 <= u16 v /\
     tft_draw_pixel (u16 v) w c = [] /\ tft_draw_pixel w (u16 v) c = []) /\
  (forall fuel cx cy r c,
     0 <= r ->
     -65296 <= cx - r -> cx + r <= 65535 ->
     -65296 <= cy - r -> cy + r <= 65535 ->
     (Z.to_nat r < fuel)%nat ->
     exists offs : list (Z * Z),
       (forall a b, In (a, b) offs -> - r <= a <= r /\ - r <= b <= r) /\
       circle_pixels fuel cx cy r =
         Returned (map (fun o => (u16 (cx + fst o), u16 (cy + snd o))) offs) /\
       tft_draw_circle fuel cx cy r c =
         Returned (flat_map (pixel_at cx cy c) offs)).
Proof.
  split.
  - intros v w c Hv Hw.
    assert (E : u16 v = v + 65536).
    { unfold u16. replace v with (v + 65536 + (-1) * 65536) at 1 by lia.
      rewrite Z.mod_add by lia. apply Z.mod_small. lia. }
    split; [lia |].
    split; apply draw_pixel_out; unfold TFT_WIDTH, TFT_HEIGHT; lia.
  - intros fuel cx cy r c Hr Hx0 Hx1 Hy0 Hy1 Hfuel.
    destruct (circle_loop_offsets cx cy r fuel r 0 0)
      as (offs & Hb & _ & Hrun); try lia.
    exists offs. split; [exact Hb | split].
    + unfold circle_pixels, draw_circle.
      now rewrite Hrun, plot_offsets_points.
    + unfold tft_draw_circle, draw_circle. rewrite Hrun. f_equal.
      apply plot_offsets_clip_wide. intros a b Hin.
      destruct (Hb a b Hin). lia.
Qed.

Lemma negative_coordinates_clip_witness :
  (240 <= u16 (-3) /\
   tft_draw_pixel (u16 (-3)) 7 RED = [] /\ tft_draw_pixel 7 (u16 (-3)) RED = [])
  /\
  exists offs : list (Z * Z),
    (forall a b, In (a, b) offs -> - 10 <= a <= 10 /\ - 10 <= b <= 10) /\
    circle_pixels 11 245 5 10 =
      Returned (map (fun o => (u16 (245 + fst o), u16 (5 + snd o))) offs) /\
    tft_draw_circle 11 245 5 10 RED =
      Returned (flat_map (pixel_at 245 5 RED) offs).
Proof.
  split.
  - apply (proj1 negative_coordinates_clip (-3) 7 RED);
      unfold is_u16; lia.
  - apply (proj2 negative_coordinates_clip 11%nat 245 5 10 RED); lia.
Defined.

(** C10 as stated does not hold.  The integer -65535, which the fourth
    call of the first pass of [tft_draw_circle(0, 0, 65535, RED)] computes
    as [x0 - x], converts to 1, and the pixel (1, 0) is written although
    the point (-65535, 0) is off the panel.  A circle off the top edge
    whose coordinates pass 65535 wraps as well: the first call of
    [tft_draw_circle(65535, 5, 10, RED)] computes [x0 + x] as 65545, which
    converts to 9, and writes the pixel (9, 5).  And [tft_draw_line] takes
    [uint16_t] endpoints: the line from (-1, 5) to (10, 5) arrives as
    (65535, 5) to (10, 5), its first three passes write (10, 5), (11, 4)
    and (12, 3), of which the last two are not on the line, and its loop,
    bounded by [x1 = 65535], is still running after any number of
    passes. *)
Lemma negative_coordinate_reaches_panel :
  u16 (0 - 65535) = 1 /\
  tft_draw_pixel (u16 (0 - 65535)) (u16 (0 + 0)) RED = tft_fill_rect 1 0 1 1 RED /\
  tft_draw_pixel (u16 (0 - 65535)) (u16 (0 + 0)) RED <> [] /\
  circle_pixels 1 0 0 65535 =
    Running [(65535, 0); (0, 65535); (0, 65535); (1, 0);
             (1, 0); (0, 1); (0, 1); (65535, 0)] /\
  tft_draw_circle 1 0 0 65535 RED =
    Running (tft_fill_rect 1 0 1 1 RED ++ tft_fill_rect 1 0 1 1 RED ++
             tft_fill_rect 0 1 1 1 RED ++ tft_fill_rect 0 1 1 1 RED) /\
  u16 (65535 + 10) = 9 /\
  circle_pixels 1 65535 5 10 =
    Running [(9, 5); (65535, 15); (65535, 15); (65525, 5);
             (65525, 5); (65535, 65531); (65535, 65531); (9, 5)] /\
  tft_draw_circle 1 65535 5 10 RED =
    Running (tft_fill_rect 9 5 1 1 RED ++ tft_fill_rect 9 5 1 1 RED) /\
  line_pixels 3 (u16 (-1)) 5 10 5 = Running [(10, 5); (11, 4); (12, 3)] /\
  tft_draw_line 3 (u16 (-1)) 5 10 5 RED =
    Running (tft_fill_rect 10 5 1 1 RED ++ tft_fill_rect 11 4 1 1 RED ++
             tft_fill_rect 12 3 1 1 RED).
Proof.
  repeat split; try (vm_compute; reflexivity).
  vm_compute. discriminate.
Qed.

(** The loop of that line never ends: [x0 <= 65535] holds for every
    [uint16_t] [x0]. *)
Lemma line_loop_unbounded {A} (plot : Z -> Z -> list A)
    fuel steep dx dy ystep x0 y0 err :
  is_u16 x0 ->
  exists out, line_loop plot fuel steep dx dy ystep 65535 x0 y0 err = Running out.
Proof.
  revert x0 y0 err. induction fuel as [| fuel IH]; intros x0 y0 err Hx;
    cbn [line_loop]; (destruct (Z.leb_spec x0 65535);
                      [| unfold is_u16 in Hx; lia]).
  - now exists [].
  - destruct (s16 (err - dy) <? 0).
    + destruct (IH (u16 (x0 + 1)) (u16 (y0 + ystep))
                  (s16 (s16 (err - dy) + dx)) (u16_range _)) as [out ->].
      eexists. reflexivity.
    + destruct (IH (u16 (x0 + 1)) y0 (s16 (err - dy)) (u16_range _))
        as [out ->].
      eexists. reflexivity.
Qed.

Lemma draw_line_off_left_edge_runs fuel color :
  exists out, tft_draw_line fuel (u16 (-1)) 5 10 5 color = Running out.
Proof.
  unfold tft_draw_line, draw_line.
  change (line_ends (u16 (-1)) 5 10 5) with (false, (10, 5, 65535, 5)).
  cbv beta iota zeta. apply line_loop_unbounded. unfold is_u16. lia.
Qed.

(** ** Text *)

Lemma unsupported_codes c :
  supported c = false ->
  (code c >=? code "0") && (code c <=? code "9") = false /\
  (code c =? code ".") = false /\
  (code c >=? code "A") && (code c <=? code "Z") = false /\
  (code c =? code " ") = false.
Proof.
  unfold supported. rewrite !orb_false_iff. rewrite !Z.geb_leb. tauto.
Qed.

Lemma string_loop_skip x y color size (s1 s2 : string) c : forall pos,
  code c <> 0 -> supported c = false ->
  string_loop x y color size pos (String.append s1 (String c s2)) =
  string_loop x y color size pos (String.append s1 s2).
Proof.
  intros pos Hc Hs. revert pos.
  destruct (unsupported_codes c Hs) as (_ & _ & Hl & Hsp).
  induction s1 as [| a s1 IH]; intros pos.
  - change (String.append EmptyString (String c s2)) with (String c s2).
    change (String.append EmptyString s2) with s2.
    cbn [string_loop].
    rewrite (proj2 (Z.eqb_neq _ _) Hc), Hl, Hsp. reflexivity.
  - change (String.append (String a s1) (String c s2))
      with (String a (String.append s1 (String c s2))).
    change (String.append (String a s1) s2)
      with (String a (String.append s1 s2)).
    cbn [string_loop]. now rewrite !IH.
Qed.

Lemma number_loop_skip x y color size (s1 s2 : string) c : forall pos,
  code c <> 0 -> supported c = false ->
  number_loop x y color size pos (String.append s1 (String c s2)) =
  number_loop x y color size pos (String.append s1 s2).
Proof.
  intros pos Hc Hs. revert pos.
  destruct (unsupported_codes c Hs) as (Hd & Hp & _ & _).
  induction s1 as [| a s1 IH]; intros pos.
  - change (String.append EmptyString (String c s2)) with (String c s2).
    change (String.append EmptyString s2) with s2.
    cbn [number_loop].
    rewrite (proj2 (Z.eqb_neq _ _) Hc), Hd, Hp. reflexivity.
  - change (String.append (String a s1) (String c s2))
      with (String a (String.append s1 (String c s2))).
    change (String.append (String a s1) s2)
      with (String a (String.append s1 s2)).
    cbn [number_loop]. now rewrite !IH.
Qed.

(** C8, as the code has it.  A character of the text (so not the
    terminating NUL) that is none of [0-9], [.], [A-Z] and the space makes
    [tft_draw_string] and [tft_draw_number] write nothing and leaves the
    pen where it is: alone it gives the empty trace, and inside a text the
    trace is that of the text without it, so the loop goes on to the
    characters after it and draws them at the pen column they would have
    without it.  Both renderers are total, so there is no fault. *)
Theorem unsupported_glyph_skipped (x y color size : Z) (s1 s2 : string)
    (c : ascii) :
  code c <> 0 -> supported c = false ->
  tft_draw_string x y (String c EmptyString) color size = [] /\
  tft_draw_number x y (String c EmptyString) color size = [] /\
  tft_draw_string x y (String.append s1 (String c s2)) color size =
    tft_draw_string x y (String.append s1 s2) color size /\
  tft_draw_number x y (String.append s1 (String c s2)) color size =
    tft_draw_number x y (String.append s1 s2) color size.
Proof.
  intros Hc Hs. unfold tft_draw_string, tft_draw_number.
  repeat split.
  - apply (string_loop_skip x y color size EmptyString EmptyString c 0 Hc Hs).
  - apply (number_loop_skip x y color size EmptyString EmptyString c 0 Hc Hs).
  - now apply string_loop_skip.
  - now apply number_loop_skip.
Qed.

Lemma unsupported_glyph_skipped_witness :
  tft_draw_string 10 20 "A-B" WHITE 2 = tft_draw_string 10 20 "AB" WHITE 2 /\
  tft_draw_number 10 20 "-1.5" WHITE 2 = tft_draw_number 10 20 "1.5" WHITE 2.
Proof.
  split.
  - apply (unsupported_glyph_skipped 10 20 WHITE 2 "A" "B" "-");
      [vm_compute; discriminate | reflexivity].
  - apply (unsupported_glyph_skipped 10 20 WHITE 2 "" "1.5" "-");
      [vm_compute; discriminate | reflexivity].
Defined.

(** C8 as stated does not hold: the pen does not advance by a character
    position past an unsupported character.  In the text A-B the letter B
    is drawn at pen column 1 (x = 16), where it is in AB, and not at pen
    column 2 (x = 22), where it is in the text with a space in the place
    of the hyphen; likewise the digit 2 of 1-2 is drawn at pen column 1,
    while in 1.2 the decimal point takes that column and the digit the
    next. *)
Lemma unsupported_glyph_keeps_pen :
  tft_draw_string 10 20 "A-B" WHITE 1 =
    tft_fill_rect 10 20 4 7 WHITE ++ tft_fill_rect 16 20 4 7 WHITE /\
  tft_draw_string 10 20 "A B" WHITE 1 =
    tft_fill_rect 10 20 4 7 WHITE ++ tft_fill_rect 22 20 4 7 WHITE /\
  tft_draw_string 10 20 "A-B" WHITE 1 <> tft_draw_string 10 20 "A B" WHITE 1 /\
  tft_draw_number 10 20 "1-2" WHITE 1 =
    tft_draw_digit 10 20 1 WHITE 1 ++ tft_draw_digit 16 20 2 WHITE 1 /\
  tft_draw_number 10 20 "1.2" WHITE 1 =
    tft_draw_digit 10 20 1 WHITE 1 ++ tft_fill_rect 16 26 1 1 WHITE ++
    tft_draw_digit 22 20 2 WHITE 1 /\
  tft_draw_number 10 20 "1-2" WHITE 1 <> tft_draw_number 10 20 "1.2" WHITE 1.
Proof.
  repeat apply conj; try (vm_compute; reflexivity);
    intros E; vm_compute in E; discriminate E.
Qed.

(** ** Arcs *)

Section ArcWrap.
Variables arc_x arc_y : Z -> Z -> spec_float -> Z.

(** An end angle below the start angle: the sweeps run to the end angle
    plus 360. *)
Lemma drawArc_wrapped fuel cx cy radius s e color thickness :
  SFltb e s = true ->
  drawArc arc_x arc_y fuel cx cy radius s e color thickness =
  arc_rings arc_x arc_y (Z.to_nat thickness) fuel cx cy radius color
            s (fadd e (float_of_int 360)) 0.
Proof. intros H. unfold drawArc. now rewrite H. Qed.

Lemma drawArc_plain fuel cx cy radius s e color thickness :
  SFltb e s = false ->
  drawArc arc_x arc_y fuel cx cy radius s e color thickness =
  arc_rings arc_x arc_y (Z.to_nat thickness) fuel cx cy radius color s e 0.
Proof. intros H. unfold drawArc. now rewrite H. Qed.

(** C7, as the code has it.  [drawArc] from 350 to 10 degrees makes the
    same calls of [drawPixel] as [drawArc] from 350 to 370 degrees, for
    every centre, radius, colour and thickness.  In general, when the end
    angle is below the start angle and the end angle plus 360 is not, the
    arc is drawn exactly as by the call with the end angle plus 360. *)
Theorem drawArc_wrap_around (fuel : nat) (cx cy radius color thickness : Z) :
  drawArc arc_x arc_y fuel cx cy radius
          (float_of_int 350) (float_of_int 10) color thickness =
  drawArc arc_x arc_y fuel cx cy radius
          (float_of_int 350) (float_of_int 370) color thickness
  /\
  forall s e,
    SFltb e s = true -> SFltb (fadd e (float_of_int 360)) s = false ->
    drawArc arc_x arc_y fuel cx cy radius s e color thickness =
    drawArc arc_x arc_y fuel cx cy radius s (fadd e (float_of_int 360))
            color thickness.
Proof.
  split.
  - rewrite drawArc_wrapped by (vm_compute; reflexivity).
    rewrite drawArc_plain by (vm_compute; reflexivity).
    replace (fadd (float_of_int 10) (float_of_int 360))
      with (float_of_int 370) by (vm_compute; reflexivity).
    reflexivity.
  - intros s e Hlt Hge. rewrite drawArc_wrapped by assumption.
    now rewrite drawArc_plain by assumption.
Qed.

(** The sweep from 350 to 370 degrees in steps of 2 is eleven pixels,
    and twelve passes are enough to leave the loop. *)
Lemma arc_sweep_350_370 cx cy rr color :
  exists angles,
    length angles = 11%nat /\
    arc_sweep arc_x arc_y 12 cx cy rr color
              (float_of_int 370) (float_of_int 350) =
    Returned (map (fun a => (arc_x cx rr a, arc_y cy rr a, color)) angles).
Proof.
  exists (map float_of_int
            [350; 352; 354; 356; 358; 360; 362; 364; 366; 368; 370]).
  split; [reflexivity |]. vm_compute. reflexivity.
Qed.
End ArcWrap.

Lemma drawArc_wrap_around_witness :
  let arc_x := fun (c rr : Z) (_ : spec_float) => c + rr in
  let arc_y := fun (c rr : Z) (_ : spec_float) => c in
  drawArc arc_x arc_y 200 120 80 60
          (float_of_int 135) (float_of_int 45) RED 3 =
  drawArc arc_x arc_y 200 120 80 60
          (float_of_int 135) (fadd (float_of_int 45) (float_of_int 360)) RED 3.
Proof.
  intros arc_x arc_y.
  apply (proj2 (drawArc_wrap_around arc_x arc_y 200 120 80 60 RED 3)
           (float_of_int 135) (float_of_int 45));
    vm_compute; reflexivity.
Defined.

(** C7 as stated does not hold.  From 400 to 10 degrees the end angle is
    below the start angle, and so is the end angle plus 360: [drawArc]
    adds 360 once, the sweep from 400 to 370 is left at once and nothing
    is drawn.  The call with the end angle increased by 360, from 400 to
    370, adds 360 in its turn and draws the 166 pixels of the sweep from
    400 to 730. *)
Lemma drawArc_wrap_only_one_turn :
  let arc_x := fun (c rr : Z) (_ : spec_float) => c + rr in
  let arc_y := fun (c rr : Z) (_ : spec_float) => c in
  SFltb (float_of_int 10) (float_of_int 400) = true /\
  SFltb (fadd (float_of_int 10) (float_of_int 360)) (float_of_int 400)
    = true /\
  drawArc arc_x arc_y 200 120 80 60
          (float_of_int 400) (float_of_int 10) RED 1 = Returned [] /\
  exists l,
    drawArc arc_x arc_y 200 120 80 60 (float_of_int 400)
            (fadd (float_of_int 10) (float_of_int 360)) RED 1 = Returned l /\
    length l = 166%nat.
Proof.
  cbv zeta.
  split; [vm_compute; reflexivity |].
  split; [vm_compute; reflexivity |].
  split; [vm_compute; reflexivity |].
  match goal with
  | |- exists l, ?d = Returned l /\ _ =>
      let v := eval vm_compute in d in
      match v with
      | Returned ?out => exists out; split; [vm_compute; reflexivity |]
      end
  end.
  vm_compute. reflexivity.
Qed.

(** * Further properties of the driver *)

(** ** What a fill leaves on the surface *)

Lemma fill_rect_lookup s st x y w h c a b :
  on_panel x y w h -> is_u16 c ->
  gram (run st (wire s (tft_fill_rect x y w h c))) !! (a, b) =
  if inside x y w h a b then Some c else gram st !! (a, b).
Proof.
  unfold on_panel, TFT_WIDTH, TFT_HEIGHT. intros H Hc.
  apply fill_rect_surface;
    unfold is_u16, TFT_WIDTH, TFT_HEIGHT; try assumption; lia.
Qed.

(** X1.  An in-bounds [tft_fill_rect] with at least one pixel sets every
    cell of its rectangle to the colour and leaves every other cell of
    the surface as it was. *)
Theorem fill_rect_paints_rectangle (s : pins) (st : gc9a01)
    (x y w h c a b : Z) :
  on_panel x y w h -> is_u16 c ->
  gram (run st (wire s (tft_fill_rect x y w h c))) !! (a, b) =
  if inside x y w h a b then Some c else gram st !! (a, b).
Proof. apply fill_rect_lookup. Qed.

Lemma fill_rect_paints_rectangle_witness :
  gram (run power_on (wire (Pins LOW HIGH) (tft_fill_rect 60 100 120 40 RED)))
    !! (61, 101) = Some RED.
Proof.
  apply (fill_rect_paints_rectangle (Pins LOW HIGH) power_on
           60 100 120 40 RED 61 101);
    unfold on_panel, is_u16, RED, TFT_WIDTH, TFT_HEIGHT; lia.
Defined.

(** X2.  A fill of no pixels ([w = 0] or [h = 0], as the progress bar
    makes at 0 percent) streams nothing and leaves the whole surface as it
    was, wherever it is placed. *)
Theorem fill_rect_empty (s : pins) (st : gc9a01) (x y w h c : Z) :
  is_u16 x -> is_u16 y -> w * h = 0 ->
  wire s (tft_fill_rect x y w h c) = addr_window x y w h /\
  gram (run st (wire s (tft_fill_rect x y w h c))) = gram st.
Proof.
  intros Hx Hy Hz. rewrite wire_fill_rect, Hz. cbn [Z.to_nat replicate concat].
  rewrite app_nil_r. split; [reflexivity |].
  now rewrite run_addr_window.
Qed.

Lemma fill_rect_empty_witness :
  gram (run power_on (wire (Pins LOW HIGH) (tft_fill_rect 15 78 0 6 RED))) =
  gram power_on.
Proof.
  apply (fill_rect_empty (Pins LOW HIGH) power_on 15 78 0 6 RED);
    unfold is_u16; lia.
Defined.

(** X3.  Of two in-bounds fills of the same rectangle the later one
    decides the surface: the first leaves no trace, and filling twice with
    one colour is the same as filling once. *)
Theorem fill_rect_last_wins (s : pins) (st : gc9a01) (x y w h c1 c2 : Z) :
  on_panel x y w h -> is_u16 c1 -> is_u16 c2 ->
  gram (run st (wire s (tft_fill_rect x y w h c1 ++ tft_fill_rect x y w h c2)))
  = gram (run st (wire s (tft_fill_rect x y w h c2))).
Proof.
  intros H H1 H2. apply map_eq. intros [a b].
  rewrite wire_app, run_app, !fill_rect_lookup by assumption.
  now destruct (inside x y w h a b).
Qed.

Lemma fill_rect_last_wins_witness :
  gram (run power_on (wire (Pins LOW HIGH)
          (tft_fill_rect 5 225 10 10 RED ++ tft_fill_rect 5 225 10 10 WHITE)))
  = gram (run power_on (wire (Pins LOW HIGH) (tft_fill_rect 5 225 10 10 WHITE))).
Proof.
  apply (fill_rect_last_wins (Pins LOW HIGH) power_on 5 225 10 10 RED WHITE);
    unfold on_panel, is_u16, RED, WHITE, TFT_WIDTH, TFT_HEIGHT; lia.
Defined.

(** X4.  In-bounds fills of two rectangles that share no cell can be made
    in either order: the surface is the same. *)
Theorem fill_rect_disjoint_commute (s : pins) (st : gc9a01)
    (x1 y1 w1 h1 c1 x2 y2 w2 h2 c2 : Z) :
  on_panel x1 y1 w1 h1 -> on_panel x2 y2 w2 h2 ->
  is_u16 c1 -> is_u16 c2 ->
  x1 + w1 <= x2 \/ x2 + w2 <= x1 \/ y1 + h1 <= y2 \/ y2 + h2 <= y1 ->
  gram (run st (wire s (tft_fill_rect x1 y1 w1 h1 c1 ++
                        tft_fill_rect x2 y2 w2 h2 c2)))
  = gram (run st (wire s (tft_fill_rect x2 y2 w2 h2 c2 ++
                          tft_fill_rect x1 y1 w1 h1 c1))).
Proof.
  intros R1 R2 H1 H2 Hd. apply map_eq. intros [a b].
  rewrite !wire_app, !run_app, !fill_rect_lookup by assumption.
  unfold inside.
  destruct (Z.leb_spec x1 a), (Z.ltb_spec a (x1 + w1)),
    (Z.leb_spec y1 b), (Z.ltb_spec b (y1 + h1)),
    (Z.leb_spec x2 a), (Z.ltb_spec a (x2 + w2)),
    (Z.leb_spec y2 b), (Z.ltb_spec b (y2 + h2));
    cbn [andb]; try reflexivity; lia.
Qed.

Lemma fill_rect_disjoint_commute_witness :
  gram (run power_on (wire (Pins LOW HIGH)
          (tft_fill_rect 5 225 10 10 RED ++ tft_fill_rect 225 225 10 10 WHITE)))
  = gram (run power_on (wire (Pins LOW HIGH)
          (tft_fill_rect 225 225 10 10 WHITE ++ tft_fill_rect 5 225 10 10 RED))).
Proof.
  apply (fill_rect_disjoint_commute (Pins LOW HIGH) power_on
           5 225 10 10 RED 225 225 10 10 WHITE);
    unfold on_panel, is_u16, RED, WHITE, TFT_WIDTH, TFT_HEIGHT; lia.
Defined.

(** X5.  [tft_fill_screen] names a window larger than what it streams:
    from any state of the pins its link trace is the addressing with 240
    as last column and as last row, a window of 241 by 241 cells, followed
    by the same 240 * 240 two-byte pixels that
    [tft_fill_rect(0, 0, 240, 240, color)] sends behind the window 0..239
    by 0..239.  The two traces differ in the window ends only, and the
    byte count of the stream, [2 * 240 * 240], is that of the window of
    [tft_fill_rect] and not that of the window [tft_fill_screen] names. *)
Theorem fill_screen_window_and_stream (s : pins) (color : Z) :
  exists stream : list bus,
    wire s (tft_fill_screen color) = addr_window 0 0 241 241 ++ stream /\
    wire s (tft_fill_rect 0 0 TFT_WIDTH TFT_HEIGHT color) =
      addr_window 0 0 240 240 ++ stream /\
    stream = concat (replicate (Z.to_nat (240 * 240))
                       [Dat ((color / 256) mod 256); Dat (color mod 256)]) /\
    Z.of_nat (length stream) = 2 * (240 * 240) /\
    addr_window 0 0 241 241 =
      [Cmd 0x2A] ++ be16 0 ++ be16 240 ++
      [Cmd 0x2B] ++ be16 0 ++ be16 240 ++ [Cmd 0x2C] /\
    addr_window 0 0 240 240 =
      [Cmd 0x2A] ++ be16 0 ++ be16 239 ++
      [Cmd 0x2B] ++ be16 0 ++ be16 239 ++ [Cmd 0x2C].
Proof.
  eexists. split; [apply wire_fill_screen |].
  split; [apply wire_fill_rect |].
  split; [reflexivity |].
  split; [| split; reflexivity].
  change (TFT_WIDTH * TFT_HEIGHT) with (240 * 240).
  assert (L : forall n : nat,
    length (concat (replicate n
      [Dat ((color / 256) mod 256); Dat (color mod 256)])) = (2 * n)%nat).
  { induction n as [| n IH]; [reflexivity |].
    cbn [replicate concat]. rewrite length_app, IH. cbn [length]. lia. }
  rewrite L. lia.
Qed.

(** ** Several fills *)

Lemma fills_cons c r rs :
  fills c (r :: rs) =
  tft_fill_rect (fst (fst (fst r))) (snd (fst (fst r))) (snd (fst r)) (snd r) c
  ++ fills c rs.
Proof. reflexivity. Qed.

Lemma fills_app c rs1 rs2 : fills c (rs1 ++ rs2) = fills c rs1 ++ fills c rs2.
Proof. unfold fills. apply flat_map_app. Qed.

Lemma flat_map_agree {B C} (f g : B -> list C) (l : list B) :
  (forall i, In i l -> f i = g i) -> flat_map f l = flat_map g l.
Proof.
  induction l as [| i l IH]; intros H; [reflexivity |].
  cbn [flat_map]. rewrite (H i (or_introl eq_refl)), IH; [reflexivity |].
  intros j Hj. apply H. now right.
Qed.

Lemma fills_flat_map {B} c (f : B -> list (Z * Z * Z * Z)) (l : list B) :
  fills c (flat_map f l) = flat_map (fun i => fills c (f i)) l.
Proof.
  induction l as [| i l IH]; [reflexivity |].
  cbn [flat_map]. now rewrite fills_app, IH.
Qed.

(** After fills of rectangles on the panel a cell holds the colour if
    one of the rectangles has it, and what it held before if none has. *)
Lemma fills_lookup c rs : forall s st a b,
  Forall rect_on_panel rs -> is_u16 c ->
  gram (run st (wire s (fills c rs))) !! (a, b) =
  if covered rs a b then Some c else gram st !! (a, b).
Proof.
  induction rs as [| r rs IH]; intros s st a b Hrs Hc; [reflexivity |].
  inversion Hrs as [| r' rs' Hr Hrest]; subst.
  rewrite fills_cons, wire_app, run_app, IH by assumption.
  cbn [covered existsb]. fold (covered rs a b).
  destruct (covered rs a b); [now rewrite orb_true_r |].
  rewrite orb_false_r. now apply fill_rect_lookup.
Qed.

Lemma untouched_nil x y w h : untouched_outside x y w h [].
Proof. intros s st a b _. reflexivity. Qed.

Lemma untouched_app x y w h t1 t2 :
  untouched_outside x y w h t1 -> untouched_outside x y w h t2 ->
  untouched_outside x y w h (t1 ++ t2).
Proof.
  intros H1 H2 s st a b Ho. rewrite wire_app, run_app.
  now rewrite H2, H1.
Qed.

Lemma untouched_mono x y w h x' y' w' h' t :
  x' <= x -> y' <= y -> x + w <= x' + w' -> y + h <= y' + h' ->
  untouched_outside x y w h t -> untouched_outside x' y' w' h' t.
Proof.
  intros Hx Hy Hw Hh Ht s st a b Ho. apply Ht.
  unfold inside in *.
  destruct (Z.leb_spec x a), (Z.ltb_spec a (x + w)),
    (Z.leb_spec y b), (Z.ltb_spec b (y + h)); cbn [andb]; try reflexivity.
  destruct (Z.leb_spec x' a), (Z.ltb_spec a (x' + w')),
    (Z.leb_spec y' b), (Z.ltb_spec b (y' + h')); cbn [andb] in Ho;
    try discriminate; lia.
Qed.

Lemma untouched_fill x y w h c :
  on_panel x y w h -> is_u16 c ->
  untouched_outside x y w h (tft_fill_rect x y w h c).
Proof.
  intros Hr Hc s st a b Ho. now rewrite fill_rect_lookup, Ho.
Qed.

(** ** Digits *)

Lemma glyph_rects_in x y digit size r :
  In r (glyph_rects x y digit size) ->
  exists col row, 0 <= col < 5 /\ 0 <= row < 7 /\
    font_bit digit col row = true /\
    r = (x + col * size, y + row * size, size, size).
Proof.
  unfold glyph_rects. intros H.
  apply in_flat_map in H as (col & Hcol & H).
  apply in_flat_map in H as (row & Hrow & H).
  exists col, row.
  destruct (font_bit digit col row) eqn:B; [| contradiction].
  destruct H as [<- | []].
  repeat split; try reflexivity.
  - cbn in Hcol. lia.
  - cbn in Hcol. lia.
  - cbn in Hrow. lia.
  - cbn in Hrow. lia.
Qed.

Lemma glyph_rects_has x y digit size col row :
  0 <= col < 5 -> 0 <= row < 7 -> font_bit digit col row = true ->
  In (x + col * size, y + row * size, size, size) (glyph_rects x y digit size).
Proof.
  intros Hcol Hrow B. unfold glyph_rects.
  apply in_flat_map. exists col. split; [cbn; lia |].
  apply in_flat_map. exists row. split; [cbn; lia |].
  rewrite B. now left.
Qed.

(** Within the stated bounds [tft_draw_digit] is the fills of the blocks
    of its set bits, in column-then-row order. *)
Lemma draw_digit_fills x y digit color size :
  0 <= x -> 0 <= y -> 0 <= digit <= 9 -> 0 <= size ->
  x + 5 * size <= TFT_WIDTH -> y + 7 * size <= TFT_HEIGHT ->
  tft_draw_digit x y digit color size = fills color (glyph_rects x y digit size).
Proof.
  unfold TFT_WIDTH, TFT_HEIGHT. intros Hx Hy Hd Hs Hw Hh.
  unfold tft_draw_digit, glyph_rects.
  destruct (Z.gtb_spec digit 9); [lia |].
  rewrite fills_flat_map. apply flat_map_agree. intros col Hcol.
  rewrite fills_flat_map. apply flat_map_agree. intros row Hrow.
  unfold font_bit.
  destruct (Z.land _ _ =? 0); cbn [negb]; [reflexivity |].
  rewrite fills_cons. cbn [fst snd fills flat_map]. rewrite app_nil_r.
  assert (0 <= col < 5) by (cbn in Hcol; lia).
  assert (0 <= row < 7) by (cbn in Hrow; lia).
  rewrite !u16_id by (unfold is_u16; nia). reflexivity.
Qed.

Lemma glyph_rects_on_panel x y digit size :
  0 <= x -> 0 <= y -> 1 <= size ->
  x + 5 * size <= TFT_WIDTH -> y + 7 * size <= TFT_HEIGHT ->
  Forall rect_on_panel (glyph_rects x y digit size).
Proof.
  unfold TFT_WIDTH, TFT_HEIGHT. intros Hx Hy Hs Hw Hh.
  apply Forall_forall. intros r Hr. apply list_elem_of_In in Hr.
  apply glyph_rects_in in Hr as (col & row & Hc & Hrw & _ & ->).
  unfold rect_on_panel, on_panel, TFT_WIDTH, TFT_HEIGHT. cbn [fst snd]. nia.
Qed.

Lemma draw_digit_lookup s st x y digit color size a b :
  0 <= x -> 0 <= y -> 0 <= digit <= 9 -> 1 <= size -> is_u16 color ->
  x + 5 * size <= TFT_WIDTH -> y + 7 * size <= TFT_HEIGHT ->
  gram (run st (wire s (tft_draw_digit x y digit color size))) !! (a, b) =
  if covered (glyph_rects x y digit size) a b
  then Some color else gram st !! (a, b).
Proof.
  intros Hx Hy Hd Hs Hc Hw Hh.
  rewrite draw_digit_fills by (assumption || lia).
  apply fills_lookup; [now apply glyph_rects_on_panel | assumption].
Qed.

Lemma covered_spec rs a b :
  covered rs a b = true <->
  exists r, In r rs /\
    inside (fst (fst (fst r))) (snd (fst (fst r))) (snd (fst r)) (snd r) a b
    = true.
Proof. unfold covered. apply existsb_exists. Qed.

Lemma inside_spec x y w h a b :
  inside x y w h a b = true <-> x <= a < x + w /\ y <= b < y + h.
Proof.
  unfold inside. rewrite !andb_true_iff, !Z.leb_le, !Z.ltb_lt. lia.
Qed.

(** X6.  [tft_draw_digit] draws the 5 x 7 bitmap of the digit scaled by
    [size]: in the block of [size] by [size] cells at column [col] and
    row [row] of the glyph every cell gets the colour if bit [row] of
    column byte [col] is set and keeps its content if not, and no cell
    outside the glyph's box of [5 * size] by [7 * size] is written. *)
Theorem draw_digit_bitmap (s : pins) (st : gc9a01)
    (x y digit color size : Z) :
  0 <= x -> 0 <= y -> 0 <= digit <= 9 -> 1 <= size -> is_u16 color ->
  x + 5 * size <= TFT_WIDTH -> y + 7 * size <= TFT_HEIGHT ->
  (forall col row a b,
     0 <= col < 5 -> 0 <= row < 7 ->
     inside (x + col * size) (y + row * size) size size a b = true ->
     gram (run st (wire s (tft_draw_digit x y digit color size))) !! (a, b) =
     if font_bit digit col row then Some color else gram st !! (a, b)) /\
  (forall a b,
     inside x y (5 * size) (7 * size) a b = false ->
     gram (run st (wire s (tft_draw_digit x y digit color size))) !! (a, b) =
     gram st !! (a, b)).
Proof.
  intros Hx Hy Hd Hs Hc Hw Hh. split.
  - intros col row a b Hcol Hrow Hin.
    rewrite draw_digit_lookup by assumption.
    apply inside_spec in Hin.
    destruct (font_bit digit col row) eqn:B.
    + replace (covered (glyph_rects x y digit size) a b) with true;
        [reflexivity |].
      symmetry. apply covered_spec.
      exists (x + col * size, y + row * size, size, size).
      split; [now apply glyph_rects_has |].
      cbn [fst snd]. now apply inside_spec.
    + replace (covered (glyph_rects x y digit size) a b) with false;
        [reflexivity |].
      symmetry. apply not_true_is_false. intros Hcov.
      apply covered_spec in Hcov as (r & Hr & Hin').
      apply glyph_rects_in in Hr as (col' & row' & Hc' & Hr' & B' & ->).
      cbn [fst snd] in Hin'. apply inside_spec in Hin'.
      assert (col' = col) by nia. assert (row' = row) by nia.
      subst. congruence.
  - intros a b Hout. rewrite draw_digit_lookup by assumption.
    replace (covered (glyph_rects x y digit size) a b) with false;
      [reflexivity |].
    symmetry. apply not_true_is_false. intros Hcov.
    apply covered_spec in Hcov as (r & Hr & Hin').
    apply glyph_rects_in in Hr as (col' & row' & Hc' & Hr' & B' & ->).
    cbn [fst snd] in Hin'. apply inside_spec in Hin'.
    assert (inside x y (5 * size) (7 * size) a b = true); [| congruence].
    apply inside_spec. nia.
Qed.

Lemma draw_digit_bitmap_witness :
  gram (run power_on (wire (Pins LOW HIGH) (tft_draw_digit 15 40 7 WHITE 2)))
    !! (15, 40) = Some WHITE /\
  gram (run power_on (wire (Pins LOW HIGH) (tft_draw_digit 15 40 7 WHITE 2)))
    !! (15, 43) = None.
Proof.
  split.
  - apply (proj1 (draw_digit_bitmap (Pins LOW HIGH) power_on 15 40 7 WHITE 2
             ltac:(lia) ltac:(lia) ltac:(lia) ltac:(lia)
             ltac:(unfold is_u16, WHITE; lia)
             ltac:(unfold TFT_WIDTH; lia) ltac:(unfold TFT_HEIGHT; lia))
             0 0 15 40); [lia | lia | reflexivity].
  - apply (proj1 (draw_digit_bitmap (Pins LOW HIGH) power_on 15 40 7 WHITE 2
             ltac:(lia) ltac:(lia) ltac:(lia) ltac:(lia)
             ltac:(unfold is_u16, WHITE; lia)
             ltac:(unfold TFT_WIDTH; lia) ltac:(unfold TFT_HEIGHT; lia))
             0 1 15 43); [lia | lia | reflexivity].
Defined.

(** ** Numbers and texts *)

Lemma untouched_digit x y digit color size :
  0 <= x -> 0 <= y -> 0 <= digit <= 9 -> 1 <= size -> is_u16 color ->
  x + 5 * size <= TFT_WIDTH -> y + 7 * size <= TFT_HEIGHT ->
  untouched_outside x y (5 * size) (7 * size)
                    (tft_draw_digit x y digit color size).
Proof.
  intros Hx Hy Hd Hs Hc Hw Hh s st a b Hout.
  rewrite draw_digit_lookup by assumption.
  replace (covered (glyph_rects x y digit size) a b) with false;
    [reflexivity |].
  symmetry. apply not_true_is_false. intros Hcov.
  apply covered_spec in Hcov as (r & Hr & Hin).
  apply glyph_rects_in in Hr as (col & row & Hcol & Hrow & _ & ->).
  cbn [fst snd] in Hin. apply inside_spec in Hin.
  assert (inside x y (5 * size) (7 * size) a b = true); [| congruence].
  apply inside_spec. nia.
Qed.

Lemma number_cells_nonneg buffer : 0 <= number_cells buffer.
Proof.
  induction buffer as [| c rest IH]; cbn [number_cells]; [lia |].
  destruct (code c =? 0); [lia |].
  destruct ((code c >=? code "0") && (code c <=? code "9")); [lia |].
  destruct (code c =? code "."); lia.
Qed.

Lemma string_cells_nonneg str : 0 <= string_cells str.
Proof.
  induction str as [| c rest IH]; cbn [string_cells]; [lia |].
  destruct (code c =? 0); [lia |].
  destruct ((code c >=? code "A") && (code c <=? code "Z")); [lia |].
  destruct (code c =? code " "); lia.
Qed.

Lemma number_loop_box x y color size :
  0 <= x -> 0 <= y -> 1 <= size -> is_u16 color ->
  y + 7 * size <= TFT_HEIGHT ->
  forall buffer pos, 0 <= pos ->
    x + 6 * size * (pos + number_cells buffer) <= TFT_WIDTH ->
    untouched_outside x y (6 * size * (pos + number_cells buffer)) (7 * size)
                      (number_loop x y color size pos buffer).
Proof.
  unfold TFT_WIDTH, TFT_HEIGHT. intros Hx Hy Hs Hc Hh.
  induction buffer as [| c rest IH]; intros pos Hpos Hw;
    cbn [number_loop number_cells] in *; [apply untouched_nil |].
  pose proof (number_cells_nonneg rest) as Hn.
  destruct (code c =? 0); [apply untouched_nil |].
  destruct ((code c >=? code "0") && (code c <=? code "9")) eqn:Hdig.
  - apply andb_prop in Hdig as [D1 D2].
    apply Z.geb_le in D1. apply Z.leb_le in D2.
    change (code "0") with 48 in *. change (code "9") with 57 in *.
    replace (pos + (1 + number_cells rest))
      with (pos + 1 + number_cells rest) in * by lia.
    apply untouched_app; [| apply IH; lia].
    rewrite u16_id by (unfold is_u16; nia).
    replace (u8 (code c - 48)) with (code c - 48)
      by (unfold u8; rewrite Z.mod_small; lia).
    apply (untouched_mono (x + pos * 6 * size) y (5 * size) (7 * size));
      try nia.
    apply untouched_digit; unfold TFT_WIDTH, TFT_HEIGHT; try assumption; nia.
  - destruct (code c =? code ".").
    + replace (pos + (1 + number_cells rest))
        with (pos + 1 + number_cells rest) in * by lia.
      apply untouched_app; [| apply IH; lia].
      rewrite !u16_id by (unfold is_u16; nia).
      apply (untouched_mono (x + pos * 6 * size) (y + 6 * size) size size);
        try nia.
      apply untouched_fill; [| assumption].
      unfold on_panel, TFT_WIDTH, TFT_HEIGHT. nia.
    + now apply IH.
Qed.

(** X7.  [tft_draw_number] writes only inside the text box of the number:
    [6 * size] columns per digit or decimal point of the buffer, [7 * size]
    rows, from [(x, y)].  Every cell outside it keeps its content. *)
Theorem draw_number_box (x y color size : Z) (buffer : string) :
  0 <= x -> 0 <= y -> 1 <= size -> is_u16 color ->
  x + 6 * size * number_cells buffer <= TFT_WIDTH ->
  y + 7 * size <= TFT_HEIGHT ->
  forall s st a b,
    inside x y (6 * size * number_cells buffer) (7 * size) a b = false ->
    gram (run st (wire s (tft_draw_number x y buffer color size))) !! (a, b) =
    gram st !! (a, b).
Proof.
  intros Hx Hy Hs Hc Hw Hh.
  pose proof (number_loop_box x y color size Hx Hy Hs Hc Hh buffer 0
                ltac:(lia)) as H.
  cbn [Z.add] in H. exact (H Hw).
Qed.

Lemma draw_number_box_witness :
  gram (run power_on (wire (Pins LOW HIGH)
          (tft_draw_number 15 40 "25.5" WHITE 2))) !! (63, 40) = None.
Proof.
  apply (draw_number_box 15 40 WHITE 2 "25.5");
    [lia | lia | lia | unfold is_u16, WHITE; lia
    | apply Z.leb_le; reflexivity | apply Z.leb_le; reflexivity
    | reflexivity].
Defined.

Lemma string_loop_box x y color size :
  0 <= x -> 0 <= y -> 1 <= size -> is_u16 color ->
  y + 7 * size <= TFT_HEIGHT ->
  forall str pos, 0 <= pos ->
    x + 6 * size * (pos + string_cells str) <= TFT_WIDTH ->
    untouched_outside x y (6 * size * (pos + string_cells str)) (7 * size)
                      (string_loop x y color size pos str).
Proof.
  unfold TFT_WIDTH, TFT_HEIGHT. intros Hx Hy Hs Hc Hh.
  induction str as [| c rest IH]; intros pos Hpos Hw;
    cbn [string_loop string_cells] in *; [apply untouched_nil |].
  pose proof (string_cells_nonneg rest) as Hn.
  destruct (code c =? 0); [apply untouched_nil |].
  destruct ((code c >=? code "A") && (code c <=? code "Z")).
  - replace (pos + (1 + string_cells rest))
      with (pos + 1 + string_cells rest) in * by lia.
    apply untouched_app; [| apply IH; lia].
    rewrite !u16_id by (unfold is_u16; nia).
    apply (untouched_mono (x + pos * 6 * size) y (4 * size) (7 * size));
      try nia.
    apply untouched_fill; [| assumption].
    unfold on_panel, TFT_WIDTH, TFT_HEIGHT. nia.
  - destruct (code c =? code " ").
    + replace (pos + (1 + string_cells rest))
        with (pos + 1 + string_cells rest) in * by lia.
      apply IH; lia.
    + now apply IH.
Qed.

(** X8.  [tft_draw_string] writes only inside the text box of the label:
    [6 * size] columns per upper-case letter or space, [7 * size] rows,
    from [(x, y)].  Every cell outside it keeps its content. *)
Theorem draw_string_box (x y color size : Z) (str : string) :
  0 <= x -> 0 <= y -> 1 <= size -> is_u16 color ->
  x + 6 * size * string_cells str <= TFT_WIDTH ->
  y + 7 * size <= TFT_HEIGHT ->
  forall s st a b,
    inside x y (6 * size * string_cells str) (7 * size) a b = false ->
    gram (run st (wire s (tft_draw_string x y str color size))) !! (a, b) =
    gram st !! (a, b).
Proof.
  intros Hx Hy Hs Hc Hw Hh.
  pose proof (string_loop_box x y color size Hx Hy Hs Hc Hh str 0
                ltac:(lia)) as H.
  cbn [Z.add] in H. exact (H Hw).
Qed.

Lemma draw_string_box_witness :
  gram (run power_on (wire (Pins LOW HIGH)
          (tft_draw_string 10 20 "CPU" WHITE 2))) !! (46, 20) = None.
Proof.
  apply (draw_string_box 10 20 WHITE 2 "CPU");
    [lia | lia | lia | unfold is_u16, WHITE; lia
    | apply Z.leb_le; reflexivity | apply Z.leb_le; reflexivity
    | reflexivity].
Defined.

(** X9.  [tft_draw_string] draws every upper-case letter as the same
    solid block: two texts with the same pattern of letters, spaces and
    other characters give the same trace, whatever the letters are. *)
Theorem draw_string_letters_alike (x y color size : Z) (s1 s2 : string) :
  char_classes s1 = char_classes s2 ->
  tft_draw_string x y s1 color size = tft_draw_string x y s2 color size.
Proof.
  unfold tft_draw_string. generalize 0. revert s2.
  induction s1 as [| c1 r1 IH]; intros [| c2 r2] pos E;
    cbn [char_classes] in E; try discriminate E.
  - reflexivity.
  - injection E as Ec Er. cbn [string_loop]. unfold char_class in Ec.
    destruct (code c1 =? 0), (code c2 =? 0);
      [reflexivity
      | destruct ((code c2 >=? code "A") && (code c2 <=? code "Z"));
        [| destruct (code c2 =? code " ")]; discriminate Ec
      | destruct ((code c1 >=? code "A") && (code c1 <=? code "Z"));
        [| destruct (code c1 =? code " ")]; discriminate Ec
      |].
    destruct ((code c1 >=? code "A") && (code c1 <=? code "Z")),
      ((code c2 >=? code "A") && (code c2 <=? code "Z")).
    + now rewrite (IH r2 (pos + 1) Er).
    + destruct (code c2 =? code " "); discriminate Ec.
    + destruct (code c1 =? code " "); discriminate Ec.
    + destruct (code c1 =? code " "), (code c2 =? code " ");
        try discriminate Ec; now apply IH.
Qed.

Lemma draw_string_letters_alike_witness :
  tft_draw_string 10 20 "TEMP" WHITE 2 = tft_draw_string 10 20 "VOLT" WHITE 2.
Proof.
  apply (draw_string_letters_alike 10 20 WHITE 2 "TEMP" "VOLT").
  reflexivity.
Defined.

(** ** Chip select *)

Lemma pins_after_app s t1 t2 :
  pins_after s (t1 ++ t2) = pins_after (pins_after s t1) t2.
Proof.
  revert s. induction t1 as [| e t1 IH]; intros s; [reflexivity |].
  destruct e; simpl; apply IH.
Qed.

Lemma selected_app s t1 t2 :
  selected s (t1 ++ t2) = selected s t1 && selected (pins_after s t1) t2.
Proof.
  revert s. induction t1 as [| e t1 IH]; intros s; [reflexivity |].
  destruct e as [p l | b | ms]; cbn [app selected pins_after]; try apply IH.
  destruct (cs s); [apply IH | reflexivity].
Qed.

Lemma framed_nil : framed [].
Proof. intros s. split; [reflexivity | auto]. Qed.

Lemma framed_app t1 t2 : framed t1 -> framed t2 -> framed (t1 ++ t2).
Proof.
  intros H1 H2 s. destruct (H1 s) as [S1 P1].
  destruct (H2 (pins_after s t1)) as [S2 P2].
  rewrite selected_app, pins_after_app, S1, S2. split; [reflexivity | auto].
Qed.

Lemma framed_flat_map {B} (f : B -> list io) (l : list B) :
  (forall i, framed (f i)) -> framed (flat_map f l).
Proof.
  intros H. induction l as [| i l IH]; [apply framed_nil |].
  cbn [flat_map]. now apply framed_app.
Qed.

Lemma framed_send_cmd c : framed (tft_send_cmd c).
Proof. intros [[] []]; split; reflexivity. Qed.

Lemma framed_send_data d : framed (tft_send_data d).
Proof. intros [[] []]; split; reflexivity. Qed.

(** The pixel loop with its bracket: data mode, chip select low, the
    stream, chip select high. *)
Lemma framed_stream n hi lo :
  framed ([DigitalWrite TFT_DC HIGH; DigitalWrite TFT_CS LOW] ++
          stream_color n hi lo ++ [DigitalWrite TFT_CS HIGH]).
Proof.
  intros s. cbn [app selected pins_after set_pin cs dc].
  induction n as [| n [IH1 IH2]]; [split; reflexivity |].
  cbn [stream_color app selected pins_after cs]. split; assumption.
Qed.

Lemma framed_set_addr_window x y w h : framed (tft_set_addr_window x y w h).
Proof.
  unfold tft_set_addr_window.
  repeat (apply framed_app;
          [first [apply framed_send_cmd | apply framed_send_data] |]).
  apply framed_send_cmd.
Qed.

Lemma framed_fill_rect x y w h c : framed (tft_fill_rect x y w h c).
Proof.
  unfold tft_fill_rect. apply framed_app;
    [apply framed_set_addr_window | apply framed_stream].
Qed.

Lemma framed_draw_pixel x y c : framed (tft_draw_pixel x y c).
Proof.
  unfold tft_draw_pixel.
  destruct ((x >=? TFT_WIDTH) || (y >=? TFT_HEIGHT));
    [apply framed_nil | apply framed_fill_rect].
Qed.

Lemma trace_of_replay {A} (plot : Z -> Z -> list A) o :
  trace_of (replay plot o) =
  flat_map (fun p => plot (fst p) (snd p)) (trace_of o).
Proof. destruct o; reflexivity. Qed.

Lemma circle_loop_replay {A} (plot : Z -> Z -> list A) fuel x0 y0 x y err :
  circle_loop plot fuel x0 y0 x y err =
  replay plot (circle_loop point fuel x0 y0 x y err).
Proof.
  revert x y err. induction fuel as [| fuel IH]; intros x y err; simpl.
  - destruct (x >=? y); reflexivity.
  - destruct (x >=? y); [| reflexivity].
    destruct (circle_next x y err) as [[x' y'] err'].
    rewrite replay_emit, <- IH. unfold circle_octants, point. simpl.
    now rewrite !app_nil_r.
Qed.

Lemma framed_draw_digit x y digit color size :
  framed (tft_draw_digit x y digit color size).
Proof.
  unfold tft_draw_digit. destruct (digit >? 9); [apply framed_nil |].
  apply framed_flat_map. intros col. apply framed_flat_map. intros row.
  destruct (Z.land _ _ =? 0); [apply framed_nil | apply framed_fill_rect].
Qed.

Lemma framed_number_loop x y color size buffer : forall pos,
  framed (number_loop x y color size pos buffer).
Proof.
  induction buffer as [| c rest IH]; intros pos; cbn [number_loop];
    [apply framed_nil |].
  destruct (code c =? 0); [apply framed_nil |].
  destruct ((code c >=? code "0") && (code c <=? code "9"));
    [apply framed_app; [apply framed_draw_digit | apply IH] |].
  destruct (code c =? code ".");
    [apply framed_app; [apply framed_fill_rect | apply IH] | apply IH].
Qed.

Lemma framed_string_loop x y color size str : forall pos,
  framed (string_loop x y color size pos str).
Proof.
  induction str as [| c rest IH]; intros pos; cbn [string_loop];
    [apply framed_nil |].
  destruct (code c =? 0); [apply framed_nil |].
  destruct ((code c >=? code "A") && (code c <=? code "Z"));
    [apply framed_app; [apply framed_fill_rect | apply IH] |].
  destruct (code c =? code " "); apply IH.
Qed.

(** X10.  The driver keeps the chip-select discipline in every function:
    from any state of the pins no byte is transferred while chip select
    is high, and a call that finds chip select high leaves it high.  This
    holds for the two initialisation sequences, the fills, single pixels,
    digits, numbers and texts, and for whatever a line or circle has put
    out, finished or not. *)
Theorem driver_keeps_chip_select (fuel : nat)
    (x y w h c x1 y1 r digit size : Z) (txt : string) :
  framed tft_init /\ framed initDisplay /\
  framed (tft_fill_rect x y w h c) /\ framed (tft_fill_screen c) /\
  framed (tft_draw_pixel x y c) /\
  framed (tft_draw_digit x y digit c size) /\
  framed (tft_draw_number x y txt c size) /\
  framed (tft_draw_string x y txt c size) /\
  framed (trace_of (tft_draw_line fuel x y x1 y1 c)) /\
  framed (trace_of (tft_draw_circle fuel x y r c)).
Proof.
  repeat apply conj.
  - intros [[] []]; split; vm_compute; reflexivity.
  - intros [[] []]; split; vm_compute; reflexivity.
  - apply framed_fill_rect.
  - unfold tft_fill_screen.
    repeat (apply framed_app;
            [first [apply framed_send_cmd | apply framed_send_data] |]).
    apply framed_stream.
  - apply framed_draw_pixel.
  - apply framed_draw_digit.
  - apply framed_number_loop.
  - apply framed_string_loop.
  - unfold tft_draw_line. rewrite draw_line_replay, trace_of_replay.
    apply framed_flat_map. intros p. apply framed_draw_pixel.
  - unfold tft_draw_circle, draw_circle.
    rewrite circle_loop_replay, trace_of_replay.
    apply framed_flat_map. intros p. apply framed_draw_pixel.
Qed.

(** ** Lines along an axis *)

(** With [dy = 0] the error never goes below zero: the loop plots one
    pixel per column and never steps. *)
Lemma line_loop_level {A} (plot : Z -> Z -> list A)
    steep dx ystep x1 y err n : forall fuel x0,
  (n <= fuel)%nat -> Z.of_nat n = x1 - x0 + 1 -> 0 <= x0 -> x1 < 65535 ->
  0 <= err < 32768 ->
  line_loop plot fuel steep dx 0 ystep x1 x0 y err =
  Returned (flat_map (fun x => if steep then plot y x else plot x y)
              (seqZ x0 (Z.of_nat n))).
Proof.
  induction n as [| n IH]; intros fuel x0 Hf Hn Hx0 Hx1 He.
  - rewrite line_loop_done by lia. reflexivity.
  - destruct fuel as [| fuel]; [lia |].
    cbn [line_loop]. destruct (Z.leb_spec x0 x1); [| lia].
    rewrite Z.sub_0_r, (s16_id err) by lia.
    destruct (Z.ltb_spec err 0); [lia |].
    rewrite (u16_id (x0 + 1)) by (unfold is_u16; lia).
    rewrite (IH fuel (x0 + 1)) by lia.
    rewrite (seqZ_cons x0 (Z.of_nat (S n))) by lia.
    replace (Z.pred (Z.of_nat (S n))) with (Z.of_nat n) by lia.
    replace (Z.succ x0) with (x0 + 1) by lia.
    cbn [emit flat_map]. reflexivity.
Qed.

(** A line between two points of one row, in either direction. *)
Lemma draw_line_row {A} (plot : Z -> Z -> list A) fuel x0 x1 y :
  0 <= x0 < 65535 -> 0 <= x1 < 65535 -> Z.abs (x1 - x0) < 32768 ->
  is_u16 y ->
  (Z.to_nat (Z.abs (x1 - x0)) < fuel)%nat ->
  draw_line plot fuel x0 y x1 y =
  Returned (flat_map (fun x => plot x y)
              (seqZ (Z.min x0 x1) (Z.abs (x1 - x0) + 1))).
Proof.
  intros H0 H1 Hd Hy Hf.
  assert (N : forall a0 a1, 0 <= a0 <= a1 -> a1 < 65535 -> a1 - a0 < 32768 ->
    (Z.to_nat (a1 - a0) < fuel)%nat ->
    line_loop plot fuel false (s16 (a1 - a0)) (s16 (Z.abs (y - y)))
              (if y <? y then 1 else -1) a1 a0 y
              (s16 (Z.quot (s16 (a1 - a0)) 2)) =
    Returned (flat_map (fun x => plot x y) (seqZ a0 (a1 - a0 + 1)))).
  { intros a0 a1 Ha Ha1 Hlen Hfa.
    rewrite Z.sub_diag. cbn [Z.abs]. change (s16 0) with 0.
    rewrite (s16_id (a1 - a0)) by lia.
    rewrite Z.quot_div_nonneg by lia.
    assert (0 <= (a1 - a0) / 2 < 32768).
    { split; [apply Z.div_pos; lia | apply Z.div_lt_upper_bound; lia]. }
    rewrite (s16_id ((a1 - a0) / 2)) by lia.
    rewrite (line_loop_level plot false (a1 - a0) _ a1 y _
               (Z.to_nat (a1 - a0 + 1))) by lia.
    now rewrite Z2Nat.id by lia. }
  unfold draw_line, line_ends.
  replace (Z.abs (y - y) >? Z.abs (x1 - x0)) with false
    by (symmetry; rewrite Z.gtb_ltb; apply Z.ltb_ge; lia).
  cbv beta iota zeta.
  destruct (Z.gtb_spec x0 x1); cbv beta iota zeta.
  - rewrite !u16_s16 by (assumption || (unfold is_u16; lia)).
    rewrite N by lia.
    replace (Z.min x0 x1) with x1 by lia.
    replace (Z.abs (x1 - x0) + 1) with (x0 - x1 + 1) by lia. reflexivity.
  - rewrite N by lia.
    replace (Z.min x0 x1) with x0 by lia.
    replace (Z.abs (x1 - x0) + 1) with (x1 - x0 + 1) by lia. reflexivity.
Qed.

(** A line between two points of one column, in either direction. *)
Lemma draw_line_column {A} (plot : Z -> Z -> list A) fuel x y0 y1 :
  0 <= x < 65535 -> 0 <= y0 < 65535 -> 0 <= y1 < 65535 ->
  Z.abs (y1 - y0) < 32768 ->
  (Z.to_nat (Z.abs (y1 - y0)) < fuel)%nat ->
  draw_line plot fuel x y0 x y1 =
  Returned (flat_map (fun y => plot x y)
              (seqZ (Z.min y0 y1) (Z.abs (y1 - y0) + 1))).
Proof.
  intros Hx H0 H1 Hd Hf.
  destruct (Z.eq_dec y0 y1) as [-> | Hne].
  - rewrite (draw_line_row plot fuel x x y1);
      rewrite ?Z.sub_diag in *; cbn [Z.abs] in *;
      try lia; try (unfold is_u16; lia).
    rewrite !Z.min_id. reflexivity.
  - assert (N : forall a0 a1, 0 <= a0 <= a1 -> a1 < 65535 ->
      a1 - a0 < 32768 -> (Z.to_nat (a1 - a0) < fuel)%nat ->
      line_loop plot fuel true (s16 (a1 - a0)) (s16 (Z.abs (x - x)))
                (if x <? x then 1 else -1) a1 a0 x
                (s16 (Z.quot (s16 (a1 - a0)) 2)) =
      Returned (flat_map (fun y => plot x y) (seqZ a0 (a1 - a0 + 1)))).
    { intros a0 a1 Ha Ha1 Hlen Hfa.
      rewrite Z.sub_diag. cbn [Z.abs]. change (s16 0) with 0.
      rewrite (s16_id (a1 - a0)) by lia.
      rewrite Z.quot_div_nonneg by lia.
      assert (0 <= (a1 - a0) / 2 < 32768).
      { split; [apply Z.div_pos; lia | apply Z.div_lt_upper_bound; lia]. }
      rewrite (s16_id ((a1 - a0) / 2)) by lia.
      rewrite (line_loop_level plot true (a1 - a0) _ a1 x _
                 (Z.to_nat (a1 - a0 + 1))) by lia.
      now rewrite Z2Nat.id by lia. }
    unfold draw_line, line_ends.
    replace (Z.abs (y1 - y0) >? Z.abs (x - x)) with true
      by (symmetry; rewrite Z.gtb_ltb; apply Z.ltb_lt; lia).
    cbv beta iota zeta.
    rewrite !u16_s16 by (unfold is_u16; lia).
    destruct (Z.gtb_spec y0 y1); cbv beta iota zeta.
    + rewrite ?(u16_s16 y0), ?(u16_s16 x) by (unfold is_u16; lia).
      rewrite N by lia.
      replace (Z.min y0 y1) with y1 by lia.
      replace (Z.abs (y1 - y0) + 1) with (y0 - y1 + 1) by lia. reflexivity.
    + rewrite N by lia.
      replace (Z.min y0 y1) with y0 by lia.
      replace (Z.abs (y1 - y0) + 1) with (y1 - y0 + 1) by lia. reflexivity.
Qed.

(** Pixels of one row from column [lo] on: those left of the panel's
    right edge are written, the others are clipped. *)
Lemma row_pixels_clip y c k : forall lo,
  0 <= lo -> 0 <= y < TFT_HEIGHT ->
  flat_map (fun x => tft_draw_pixel x y c) (seqZ lo (Z.of_nat k)) =
  flat_map (fun x => tft_fill_rect x y 1 1 c)
           (seqZ lo (Z.min (Z.of_nat k) (TFT_WIDTH - lo))).
Proof.
  unfold TFT_WIDTH, TFT_HEIGHT.
  induction k as [| k IH]; intros lo Hlo Hy.
  - rewrite (seqZ_nil lo (Z.min _ _)) by lia. reflexivity.
  - rewrite (seqZ_cons lo (Z.of_nat (S k))) by lia.
    replace (Z.pred (Z.of_nat (S k))) with (Z.of_nat k) by lia.
    cbn [flat_map]. rewrite IH by lia.
    destruct (Z_lt_le_dec lo 240) as [Hin | Hout].
    + rewrite (seqZ_cons lo (Z.min _ _)) by lia. cbn [flat_map].
      rewrite draw_pixel_in by (unfold TFT_WIDTH, TFT_HEIGHT; lia).
      do 2 f_equal. f_equal. lia.
    + rewrite draw_pixel_out by (unfold TFT_WIDTH; lia).
      rewrite !(seqZ_nil _ (Z.min _ _)) by lia. reflexivity.
Qed.

Lemma column_pixels_clip x c k : forall lo,
  0 <= lo -> 0 <= x < TFT_WIDTH ->
  flat_map (fun y => tft_draw_pixel x y c) (seqZ lo (Z.of_nat k)) =
  flat_map (fun y => tft_fill_rect x y 1 1 c)
           (seqZ lo (Z.min (Z.of_nat k) (TFT_HEIGHT - lo))).
Proof.
  unfold TFT_WIDTH, TFT_HEIGHT.
  induction k as [| k IH]; intros lo Hlo Hx.
  - rewrite (seqZ_nil lo (Z.min _ _)) by lia. reflexivity.
  - rewrite (seqZ_cons lo (Z.of_nat (S k))) by lia.
    replace (Z.pred (Z.of_nat (S k))) with (Z.of_nat k) by lia.
    cbn [flat_map]. rewrite IH by lia.
    destruct (Z_lt_le_dec lo 240) as [Hin | Hout].
    + rewrite (seqZ_cons lo (Z.min _ _)) by lia. cbn [flat_map].
      rewrite draw_pixel_in by (unfold TFT_WIDTH, TFT_HEIGHT; lia).
      do 2 f_equal. f_equal. lia.
    + rewrite draw_pixel_out by (unfold TFT_HEIGHT; lia).
      rewrite !(seqZ_nil _ (Z.min _ _)) by lia. reflexivity.
Qed.

Lemma flat_map_point {B} (f : B -> Z * Z) (l : list B) :
  flat_map (fun i => point (fst (f i)) (snd (f i))) l = map f l.
Proof.
  induction l as [| i l IH]; [reflexivity |].
  cbn [flat_map map]. rewrite IH. unfold point. cbn [app].
  now destruct (f i).
Qed.

(** X11.  A line along a row or a column is exact and is clipped at the
    far edge: [tft_draw_line] between two points of one row of the panel
    hands every column from the smaller to the larger [x] to
    [tft_draw_pixel], once and in rising order, and writes those below
    240; likewise for two points of one column.  (As the status bar's
    [tft_draw_line(0, 20, TFT_WIDTH, 20, GRAY)], whose last pixel is
    clipped.) *)
Theorem draw_line_along_axis (fuel : nat) (p q0 q1 c : Z) :
  0 <= p < TFT_WIDTH -> 0 <= q0 < 32768 -> 0 <= q1 < 32768 ->
  (Z.to_nat (Z.abs (q1 - q0)) < fuel)%nat ->
  let lo := Z.min q0 q1 in
  let n := Z.abs (q1 - q0) + 1 in
  line_pixels fuel q0 p q1 p = Returned (map (fun x => (x, p)) (seqZ lo n)) /\
  tft_draw_line fuel q0 p q1 p c =
    Returned (flat_map (fun x => tft_fill_rect x p 1 1 c)
                (seqZ lo (Z.min n (TFT_WIDTH - lo)))) /\
  line_pixels fuel p q0 p q1 = Returned (map (fun y => (p, y)) (seqZ lo n)) /\
  tft_draw_line fuel p q0 p q1 c =
    Returned (flat_map (fun y => tft_fill_rect p y 1 1 c)
                (seqZ lo (Z.min n (TFT_HEIGHT - lo)))).
Proof.
  intros Hp H0 H1 Hf lo n. unfold TFT_WIDTH, TFT_HEIGHT in *.
  assert (En : n = Z.of_nat (Z.to_nat n)) by (subst n; lia).
  repeat apply conj.
  - unfold line_pixels.
    rewrite draw_line_row by (unfold is_u16; lia).
    f_equal; try apply (flat_map_point (fun x => (x, p))).
  - unfold tft_draw_line.
    rewrite draw_line_row by (unfold is_u16; lia).
    f_equal. fold lo n. rewrite En at 1.
    rewrite row_pixels_clip by (unfold TFT_HEIGHT; subst lo; lia).
    now rewrite <- En.
  - unfold line_pixels. rewrite draw_line_column by lia.
    f_equal; try apply (flat_map_point (fun y => (p, y))).
  - unfold tft_draw_line. rewrite draw_line_column by lia.
    f_equal. fold lo n. rewrite En at 1.
    rewrite column_pixels_clip by (unfold TFT_WIDTH; subst lo; lia).
    now rewrite <- En.
Qed.

Lemma draw_line_along_axis_witness :
  tft_draw_line 241 0 20 240 20 RED =
  Returned (flat_map (fun x => tft_fill_rect x 20 1 1 RED) (seqZ 0 240)).
Proof.
  apply (draw_line_along_axis 241 20 0 240 RED);
    unfold TFT_WIDTH; lia.
Defined.

(** ** Pixels on the surface *)

(** After pixels of the panel are drawn a cell holds the colour if it is
    one of them, and what it held before if not. *)
Lemma pixels_lookup c (l : list (Z * Z)) : forall s st a b,
  Forall (fun p => in_panel (fst p) (snd p) = true) l -> is_u16 c ->
  gram (run st (wire s
    (flat_map (fun p => tft_draw_pixel (fst p) (snd p) c) l))) !! (a, b) =
  if among l a b then Some c else gram st !! (a, b).
Proof.
  induction l as [| p l IH]; intros s st a b Hl Hc; [reflexivity |].
  inversion Hl as [| p' l' Hp Hrest]; subst.
  cbn [flat_map]. rewrite wire_app, run_app, IH by assumption.
  cbn [among existsb]. fold (among l a b).
  destruct (among l a b); [now rewrite orb_true_r |].
  rewrite orb_false_r.
  apply in_panel_spec in Hp. unfold TFT_WIDTH, TFT_HEIGHT in Hp.
  rewrite draw_pixel_in by (unfold TFT_WIDTH, TFT_HEIGHT; lia).
  rewrite fill_rect_lookup
    by (unfold on_panel, TFT_WIDTH, TFT_HEIGHT; (assumption || lia)).
  replace (inside (fst p) (snd p) 1 1 a b)
    with ((fst p =? a) && (snd p =? b)); [reflexivity |].
  apply eq_true_iff_eq.
  rewrite inside_spec, andb_true_iff, !Z.eqb_eq. lia.
Qed.

Lemma among_app l1 l2 a b :
  among (l1 ++ l2) a b = among l1 a b || among l2 a b.
Proof. apply existsb_app. Qed.

Lemma among_spec l a b : among l a b = true <-> In (a, b) l.
Proof.
  unfold among. rewrite existsb_exists. split.
  - intros ([x y] & Hin & E). cbn [fst snd] in E.
    apply andb_true_iff in E as [Ex Ey].
    apply Z.eqb_eq in Ex, Ey. now subst.
  - intros Hin. exists (a, b). split; [assumption |].
    cbn [fst snd]. now rewrite !Z.eqb_refl.
Qed.

Lemma among_row y lo n a b :
  among (map (fun i => (i, y)) (seqZ lo n)) a b =
  (lo <=? a) && (a <? lo + n) && (b =? y).
Proof.
  apply eq_true_iff_eq.
  rewrite among_spec, in_map_iff, !andb_true_iff, Z.leb_le, Z.ltb_lt,
    Z.eqb_eq.
  split.
  - intros (i & E & Hin). injection E as <- <-.
    apply list_elem_of_In, elem_of_seqZ in Hin. lia.
  - intros [[H1 H2] ->]. exists a. split; [reflexivity |].
    apply list_elem_of_In, elem_of_seqZ. lia.
Qed.

Lemma among_column x lo n a b :
  among (map (fun j => (x, j)) (seqZ lo n)) a b =
  (a =? x) && (lo <=? b) && (b <? lo + n).
Proof.
  apply eq_true_iff_eq.
  rewrite among_spec, in_map_iff, !andb_true_iff, Z.leb_le, Z.ltb_lt,
    Z.eqb_eq.
  split.
  - intros (i & E & Hin). injection E as <- <-.
    apply list_elem_of_In, elem_of_seqZ in Hin. lia.
  - intros [[-> H1] H2]. exists b. split; [reflexivity |].
    apply list_elem_of_In, elem_of_seqZ. lia.
Qed.

(** ** The outline of a rectangle *)

Lemma replay_seq_outcome {A} (plot : Z -> Z -> list A) o1 o2 :
  replay plot (seq_outcome o1 o2) =
  seq_outcome (replay plot o1) (replay plot o2).
Proof. destruct o1; cbn [seq_outcome replay]; [apply replay_emit | reflexivity]. Qed.

Lemma draw_rect_replay {A} (plot : Z -> Z -> list A) fuel x y w h :
  draw_rect plot fuel x y w h = replay plot (rect_pixels fuel x y w h).
Proof.
  unfold rect_pixels, draw_rect.
  now rewrite !replay_seq_outcome, <- !draw_line_replay.
Qed.

(** The four lines of an outline on the panel: top and bottom from left to
    right, then left and right from top to bottom. *)
Lemma rect_pixels_outline fuel x y w h :
  on_panel x y w h -> (Z.to_nat (Z.max w h) <= fuel)%nat ->
  rect_pixels fuel x y w h =
  Returned (map (fun i => (i, y)) (seqZ x w) ++
            map (fun i => (i, y + h - 1)) (seqZ x w) ++
            map (fun j => (x, j)) (seqZ y h) ++
            map (fun j => (x + w - 1, j)) (seqZ y h)).
Proof.
  unfold on_panel, TFT_WIDTH, TFT_HEIGHT.
  intros (Hx & Hy & Hw & Hh & Hxw & Hyh) Hf.
  unfold rect_pixels, draw_rect.
  rewrite (u16_id (x + w - 1)), (u16_id (y + h - 1)) by (unfold is_u16; lia).
  rewrite (draw_line_row point fuel x (x + w - 1) y)
    by (unfold is_u16; lia).
  rewrite (draw_line_row point fuel x (x + w - 1) (y + h - 1))
    by (unfold is_u16; lia).
  rewrite (draw_line_column point fuel x y (y + h - 1)) by lia.
  rewrite (draw_line_column point fuel (x + w - 1) y (y + h - 1)) by lia.
  cbn [seq_outcome emit].
  replace (Z.min x (x + w - 1)) with x by lia.
  replace (Z.min y (y + h - 1)) with y by lia.
  replace (Z.abs (x + w - 1 - x) + 1) with w by lia.
  replace (Z.abs (y + h - 1 - y) + 1) with h by lia.
  rewrite (flat_map_point (fun i => (i, y))),
    (flat_map_point (fun i => (i, y + h - 1))),
    (flat_map_point (fun j => (x, j))),
    (flat_map_point (fun j => (x + w - 1, j))).
  reflexivity.
Qed.

(** X12.  [tft_draw_rect] on a rectangle of the panel returns (as many
    passes as the longer side are enough) and draws its outline: the cells
    of the first and last column and of the first and last row of the
    rectangle get the colour, every other cell of the surface, the
    interior included, keeps what it held. *)
Theorem draw_rect_outline (s : pins) (st : gc9a01) (fuel : nat)
    (x y w h c a b : Z) :
  on_panel x y w h -> is_u16 c -> (Z.to_nat (Z.max w h) <= fuel)%nat ->
  exists t : list io,
    tft_draw_rect fuel x y w h c = Returned t /\
    gram (run st (wire s t)) !! (a, b) =
    if on_outline x y w h a b then Some c else gram st !! (a, b).
Proof.
  intros Hr Hc Hf. unfold tft_draw_rect.
  rewrite draw_rect_replay, rect_pixels_outline by assumption.
  cbn [replay]. eexists. split; [reflexivity |].
  unfold on_panel, TFT_WIDTH, TFT_HEIGHT in Hr.
  destruct Hr as (Hx & Hy & Hw & Hh & Hxw & Hyh).
  rewrite pixels_lookup; [| | assumption].
  - rewrite !among_app, !among_row, !among_column.
    match goal with |- (if ?p then _ else _) = (if ?q then _ else _) =>
      replace p with q; [reflexivity |] end.
    apply eq_true_iff_eq. unfold on_outline.
    rewrite !orb_true_iff, !andb_true_iff, !orb_true_iff, inside_spec,
      !Z.leb_le, !Z.ltb_lt, !Z.eqb_eq.
    lia.
  - rewrite !Forall_app. repeat apply conj;
      apply Forall_forall; intros p Hp; apply list_elem_of_In in Hp;
      apply in_map_iff in Hp as (i & <- & Hi);
      apply list_elem_of_In, elem_of_seqZ in Hi;
      apply in_panel_spec; unfold TFT_WIDTH, TFT_HEIGHT; cbn [fst snd]; lia.
Qed.

Lemma draw_rect_outline_witness :
  exists t : list io,
    tft_draw_rect 120 60 100 120 40 WHITE = Returned t /\
    gram (run power_on (wire (Pins LOW HIGH) t)) !! (61, 101) =
    if on_outline 60 100 120 40 61 101 then Some WHITE
    else gram power_on !! (61, 101).
Proof.
  apply (draw_rect_outline (Pins LOW HIGH) power_on 120 60 100 120 40 WHITE
           61 101);
    unfold on_panel, is_u16, WHITE, TFT_WIDTH, TFT_HEIGHT; lia.
Defined.

(** ** Lines as chains of pixels *)

Lemma bresenham_walk_length steep dx dy ystep n : forall x y err,
  length (bresenham_walk n steep dx dy ystep x y err) = n.
Proof.
  induction n as [| n IH]; intros x y err; [reflexivity |].
  cbn [bresenham_walk length]. destruct (err - dy <? 0); now rewrite IH.
Qed.

(** The walk under its invariant: it starts at the first column, every
    step goes one column on and at most one row, and it ends on the end
    point. *)
Lemma bresenham_walk_chain steep dx dy ystep x1 y1 n : forall x0 y0 err,
  0 <= dy <= dx -> ystep = 1 \/ ystep = -1 ->
  Z.of_nat (S n) = x1 - x0 + 1 ->
  walk_inv dx dy ystep x1 y1 x0 y0 err ->
  chained (bresenham_walk (S n) steep dx dy ystep x0 y0 err) /\
  hd (0, 0) (bresenham_walk (S n) steep dx dy ystep x0 y0 err) =
    (if steep then (y0, x0) else (x0, y0)) /\
  List.last (bresenham_walk (S n) steep dx dy ystep x0 y0 err) (0, 0) =
    (if steep then (y1, x1) else (x1, y1)).
Proof.
  induction n as [| n IH]; intros x0 y0 err Hdy Hst Hn Hinv;
    pose proof Hinv as (Hx & He & Eq & Hr).
  - cbn [bresenham_walk]. assert (x0 = x1) by lia. subst x0.
    assert (Hh : 0 <= dx / 2 /\ 2 * (dx / 2) <= dx).
    { pose proof (Z.div_mod dx 2 ltac:(lia)).
      pose proof (Z.mod_pos_bound dx 2 ltac:(lia)). lia. }
    assert (y0 = y1).
    { destruct (Z.eq_dec y0 y1) as [E | E]; [exact E | exfalso].
      assert (1 <= (y1 - y0) * ystep) by (destruct Hst as [-> | ->]; lia).
      assert (dx <= (y1 - y0) * ystep * dx) by nia.
      lia. }
    subst y0.
    destruct (err - dy <? 0); cbn; auto.
  - assert (Hnext := walk_inv_next dx dy ystep x1 y1 x0 y0 err Hdy Hst Hinv
                       ltac:(lia)).
    change (bresenham_walk (S (S n)) steep dx dy ystep x0 y0 err)
      with ((if steep then (y0, x0) else (x0, y0)) ::
            (if err - dy <? 0
             then bresenham_walk (S n) steep dx dy ystep (x0 + 1)
                                 (y0 + ystep) (err - dy + dx)
             else bresenham_walk (S n) steep dx dy ystep (x0 + 1) y0
                                 (err - dy))).
    destruct (err - dy <? 0);
      [destruct (IH (x0 + 1) (y0 + ystep) (err - dy + dx))
         as (Hc & Hh & Hl); auto; try lia
      |destruct (IH (x0 + 1) y0 (err - dy)) as (Hc & Hh & Hl);
         auto; try lia];
      (split; [| split; [reflexivity |]]).
    + revert Hc Hh.
      destruct (bresenham_walk (S n) steep dx dy ystep (x0 + 1)
                  (y0 + ystep) (err - dy + dx)) as [| q rest];
        [intros; exact I |].
      cbn [hd]. intros Hc ->. cbn [chained]. split; [| exact Hc].
      unfold adjacent.
      destruct steep, Hst as [-> | ->]; cbn [fst snd];
        (repeat split; [lia | lia | intros E; injection E; lia]).
    + rewrite <- Hl. revert Hh.
      destruct (bresenham_walk (S n) steep dx dy ystep (x0 + 1)
                  (y0 + ystep) (err - dy + dx)); [| reflexivity].
      cbn [hd]. destruct steep; intros E; injection E; lia.
    + revert Hc Hh.
      destruct (bresenham_walk (S n) steep dx dy ystep (x0 + 1) y0
                  (err - dy)) as [| q rest];
        [intros; exact I |].
      cbn [hd]. intros Hc ->. cbn [chained]. split; [| exact Hc].
      unfold adjacent.
      destruct steep; cbn [fst snd];
        (repeat split; [lia | lia | intros E; injection E; lia]).
    + rewrite <- Hl. revert Hh.
      destruct (bresenham_walk (S n) steep dx dy ystep (x0 + 1) y0
                  (err - dy)); [| reflexivity].
      cbn [hd]. destruct steep; intros E; injection E; lia.
Qed.

(** For endpoints below 32768 the recorded coordinates are the walk of
    the specification, with more passes allowed than the longer extent. *)
Lemma line_pixels_bresenham fuel x0 y0 x1 y1 :
  0 <= x0 < 32768 -> 0 <= y0 < 32768 ->
  0 <= x1 < 32768 -> 0 <= y1 < 32768 ->
  (Z.to_nat (Z.max (Z.abs (x1 - x0)) (Z.abs (y1 - y0))) < fuel)%nat ->
  line_pixels fuel x0 y0 x1 y1 = Returned (bresenham x0 y0 x1 y1).
Proof.
  intros Hx0 Hy0 Hx1 Hy1 Hfuel.
  unfold line_pixels, draw_line, line_ends, bresenham.
  rewrite Z.gtb_ltb.
  destruct (Z.ltb_spec (Z.abs (x1 - x0)) (Z.abs (y1 - y0))) as [Hs | Hs];
    cbv beta iota zeta; rewrite Z.gtb_ltb;
    rewrite ?(u16_s16 x0), ?(u16_s16 y0), ?(u16_s16 x1), ?(u16_s16 y1)
      by (unfold is_u16; lia).
  - destruct (Z.ltb_spec y1 y0) as [Hsw | Hsw]; cbv beta iota zeta;
      rewrite ?(u16_s16 x0), ?(u16_s16 y0), ?(u16_s16 x1), ?(u16_s16 y1)
        by (unfold is_u16; lia);
      apply line_loop_normal; lia.
  - destruct (Z.ltb_spec x1 x0) as [Hsw | Hsw]; cbv beta iota zeta;
      rewrite ?(u16_s16 x0), ?(u16_s16 y0), ?(u16_s16 x1), ?(u16_s16 y1)
        by (unfold is_u16; lia);
      apply line_loop_normal; lia.
Qed.

Lemma bresenham_chain x0 y0 x1 y1 :
  0 <= x0 -> 0 <= y0 -> 0 <= x1 -> 0 <= y1 ->
  length (bresenham x0 y0 x1 y1) =
    S (Z.to_nat (Z.max (Z.abs (x1 - x0)) (Z.abs (y1 - y0)))) /\
  chained (bresenham x0 y0 x1 y1) /\
  ((hd (0, 0) (bresenham x0 y0 x1 y1) = (x0, y0) /\
    List.last (bresenham x0 y0 x1 y1) (0, 0) = (x1, y1)) \/
   (hd (0, 0) (bresenham x0 y0 x1 y1) = (x1, y1) /\
    List.last (bresenham x0 y0 x1 y1) (0, 0) = (x0, y0))).
Proof.
  intros Hx0 Hy0 Hx1 Hy1.
  assert (N : forall steep a0 b0 a1 b1,
    0 <= a0 <= a1 -> Z.abs (b1 - b0) <= a1 - a0 ->
    let l := bresenham_walk (Z.to_nat (a1 - a0 + 1)) steep (a1 - a0)
         (Z.abs (b1 - b0)) (if b0 <? b1 then 1 else -1) a0 b0
         ((a1 - a0) / 2) in
    length l = S (Z.to_nat (a1 - a0)) /\ chained l /\
    hd (0, 0) l = (if steep then (b0, a0) else (a0, b0)) /\
    List.last l (0, 0) = (if steep then (b1, a1) else (a1, b1))).
  { intros steep a0 b0 a1 b1 Ha Hslope l. subst l.
    rewrite bresenham_walk_length.
    replace (Z.to_nat (a1 - a0 + 1)) with (S (Z.to_nat (a1 - a0))) by lia.
    split; [reflexivity |].
    apply bresenham_walk_chain with (x1 := a1) (y1 := b1); try lia.
    - destruct (b0 <? b1); auto.
    - now apply walk_inv_start. }
  unfold bresenham.
  destruct (Z.ltb_spec (Z.abs (x1 - x0)) (Z.abs (y1 - y0))) as [Hs | Hs].
  - destruct (Z.ltb_spec y1 y0) as [Hsw | Hsw].
    + destruct (N true y1 x1 y0 x0) as (Hl & Hc & Hh & Ht); try lia.
      rewrite Hl, Hh, Ht. repeat split; auto. f_equal. lia.
    + destruct (N true y0 x0 y1 x1) as (Hl & Hc & Hh & Ht); try lia.
      rewrite Hl, Hh, Ht. repeat split; auto. f_equal. lia.
  - destruct (Z.ltb_spec x1 x0) as [Hsw | Hsw].
    + destruct (N false x1 y1 x0 y0) as (Hl & Hc & Hh & Ht); try lia.
      rewrite Hl, Hh, Ht. repeat split; auto. f_equal. lia.
    + destruct (N false x0 y0 x1 y1) as (Hl & Hc & Hh & Ht); try lia.
      rewrite Hl, Hh, Ht. repeat split; auto. f_equal. lia.
Qed.

(** X13.  A line joins its endpoints without a gap: for endpoints with
    coordinates below 32768 [tft_draw_line] returns (more passes than the
    longer extent are enough), and the coordinates it hands to
    [tft_draw_pixel] run from one endpoint to the other, are one more than
    the longer extent in number, and each touches the next, side by side
    or corner to corner. *)
Theorem draw_line_joins_endpoints (fuel : nat) (x0 y0 x1 y1 color : Z) :
  0 <= x0 < 32768 -> 0 <= y0 < 32768 ->
  0 <= x1 < 32768 -> 0 <= y1 < 32768 ->
  (Z.to_nat (Z.max (Z.abs (x1 - x0)) (Z.abs (y1 - y0))) < fuel)%nat ->
  exists l : list (Z * Z),
    line_pixels fuel x0 y0 x1 y1 = Returned l /\
    tft_draw_line fuel x0 y0 x1 y1 color =
      Returned (flat_map (fun p => tft_draw_pixel (fst p) (snd p) color) l) /\
    length l = S (Z.to_nat (Z.max (Z.abs (x1 - x0)) (Z.abs (y1 - y0)))) /\
    chained l /\
    ((hd (0, 0) l = (x0, y0) /\ List.last l (0, 0) = (x1, y1)) \/
     (hd (0, 0) l = (x1, y1) /\ List.last l (0, 0) = (x0, y0))).
Proof.
  intros Hx0 Hy0 Hx1 Hy1 Hf.
  exists (bresenham x0 y0 x1 y1).
  pose proof (line_pixels_bresenham fuel x0 y0 x1 y1 Hx0 Hy0 Hx1 Hy1 Hf)
    as Hrun.
  split; [exact Hrun |]. split.
  - unfold tft_draw_line. now rewrite draw_line_replay, Hrun.
  - apply bresenham_chain; lia.
Qed.

Lemma draw_line_joins_endpoints_witness :
  exists l : list (Z * Z),
    line_pixels 300 230 10 500 60 = Returned l /\
    tft_draw_line 300 230 10 500 60 RED =
      Returned (flat_map (fun p => tft_draw_pixel (fst p) (snd p) RED) l) /\
    length l = S (Z.to_nat (Z.max (Z.abs (500 - 230)) (Z.abs (60 - 10)))) /\
    chained l /\
    ((hd (0, 0) l = (230, 10) /\ List.last l (0, 0) = (500, 60)) \/
     (hd (0, 0) l = (500, 60) /\ List.last l (0, 0) = (230, 10))).
Proof.
  apply (draw_line_joins_endpoints 300 230 10 500 60 RED); lia.
Defined.

(** ** How close the circle is *)

Lemma octant_offsets_on_ring r x y a b :
  0 <= y <= x -> - 2 * x <= x * x + y * y - r * r + 2 * y <= 2 * y ->
  In (a, b) (octant_offsets x y) -> on_ring r a b.
Proof.
  unfold octant_offsets, on_ring. simpl. intros Hy He H.
  repeat (destruct H as [H | H];
          [injection H as <- <-;
           rewrite ?Z.abs_opp, (Z.abs_eq x), (Z.abs_eq y) by lia; lia |]).
  contradiction.
Qed.

(** The error term of the circle loop is [x * x + y * y - r * r + 2 * y];
    one pass keeps that. *)
Lemma circle_next_error r x y err :
  err = x * x + y * y - r * r + 2 * y ->
  let '(x', y', err') := circle_next x y err in
  err' = x' * x' + y' * y' - r * r + 2 * y'.
Proof.
  intros ->. unfold circle_next.
  destruct (x * x + y * y - r * r + 2 * y <=? 0).
  - destruct (x * x + y * y - r * r + 2 * y + (2 * (y + 1) + 1) >? 0); lia.
  - destruct (x * x + y * y - r * r + 2 * y >? 0); lia.
Qed.

(** The run of the circle loop from a loop head of the circle of radius
    [r]: the loop is left, every offset it plots is on the ring, and the
    offsets of the first pass are among them. *)
Lemma circle_loop_on_ring x0 y0 r fuel : forall x y err,
  0 <= y -> x <= r -> x - y < Z.of_nat fuel ->
  err = x * x + y * y - r * r + 2 * y ->
  (y <= x -> - 2 * x <= err <= 2 * y) ->
  exists offs : list (Z * Z),
    (forall a b, In (a, b) offs -> on_ring r a b) /\
    (y <= x -> incl (octant_offsets x y) offs) /\
    forall A (plot : Z -> Z -> list A),
      circle_loop plot fuel x0 y0 x y err =
      Returned (flat_map (plot_offset plot x0 y0) offs).
Proof.
  induction fuel as [| fuel IH]; intros x y err Hy Hx Hf Eq He.
  - exists []. repeat split; try contradiction; try lia.
    intros A plot. simpl. destruct (Z.geb_spec x y); [lia | reflexivity].
  - destruct (Z.geb_spec x y) as [Hge | Hlt].
    + pose proof (circle_next_progress x y err) as Hn.
      pose proof (circle_next_error r x y err Eq) as Hq.
      pose proof (circle_next_range r x y err ltac:(lia) Hx ltac:(lia))
        as Hrg.
      destruct (circle_next x y err) as [[x' y'] err'] eqn:En.
      destruct Hn as (Hy' & Hx' & Hd). destruct Hrg as (_ & _ & He').
      destruct (IH x' y' err') as (offs & Hon & _ & Hrun); try lia.
      exists (octant_offsets x y ++ offs). split; [| split].
      * intros a b H. apply in_app_or in H as [H | H].
        -- apply (octant_offsets_on_ring r x y); [lia | | exact H].
           rewrite <- Eq. lia.
        -- now apply Hon.
      * intros _. apply incl_appl, incl_refl.
      * intros A plot. cbn [circle_loop].
        destruct (Z.geb_spec x y); [| lia]. rewrite En.
        rewrite Hrun, circle_octants_offsets. cbn [emit].
        now rewrite flat_map_app.
    + exists []. repeat split; try contradiction; try lia.
      intros A plot. simpl. destruct (Z.geb_spec x y); [lia | reflexivity].
Qed.

(** The error term at every loop head. *)
Lemma circle_heads_error r fuel : forall x y err,
  err = x * x + y * y - r * r + 2 * y ->
  forall x' y' err', In (x', y', err') (circle_heads fuel x y err) ->
    err' = x' * x' + y' * y' - r * r + 2 * y'.
Proof.
  induction fuel as [| fuel IH]; intros x y err Eq x' y' err' Hin;
    cbn [circle_heads] in Hin.
  - destruct Hin as [E | []]. injection E as <- <- <-. exact Eq.
  - destruct Hin as [E | Hin]; [injection E as <- <- <-; exact Eq |].
    destruct (x >=? y); [| contradiction].
    pose proof (circle_next_error r x y err Eq) as Hq.
    destruct (circle_next x y err) as [[x1 y1] err1].
    exact (IH x1 y1 err1 Hq x' y' err' Hin).
Qed.

(** X14.  [tft_draw_circle] returns for every radius (more passes than
    the radius are enough) and stays on the circle: every offset from the
    centre it plots is inside or on the circle of radius [r] while its
    outer diagonal neighbour is outside, and the four points at distance
    [r] along the axes are plotted.  At every loop head the error
    variable is [x * x + y * y - r * r + 2 * y].  The coordinates handed
    to [tft_draw_pixel] are the centre plus the offset in [uint16_t]. *)
Theorem draw_circle_on_ring (fuel : nat) (cx cy r : Z) :
  0 <= r <= 65535 -> (Z.to_nat r < fuel)%nat ->
  (exists offs : list (Z * Z),
    (forall color, tft_draw_circle fuel cx cy r color =
       Returned (flat_map (fun o => tft_draw_pixel (u16 (cx + fst o))
                                      (u16 (cy + snd o)) color) offs)) /\
    (forall a b, In (a, b) offs -> on_ring r a b) /\
    In (r, 0) offs /\ In (0, r) offs /\ In (- r, 0) offs /\ In (0, - r) offs)
  /\
  (forall x y err, In (x, y, err) (circle_heads fuel r 0 0) ->
     err = x * x + y * y - r * r + 2 * y).
Proof.
  intros Hr Hf. split.
  - destruct (circle_loop_on_ring cx cy r fuel r 0 0)
      as (offs & Hon & Hfirst & Hrun); try lia.
    exists offs. split; [| split; [exact Hon |]].
    + intros color. unfold tft_draw_circle, draw_circle. now rewrite Hrun.
    + specialize (Hfirst ltac:(lia)).
      repeat split; apply Hfirst; unfold octant_offsets; cbn; auto 10.
  - apply circle_heads_error. lia.
Qed.

Lemma draw_circle_on_ring_witness :
  (exists offs : list (Z * Z),
    (forall color, tft_draw_circle 21 120 120 20 color =
       Returned (flat_map (fun o => tft_draw_pixel (u16 (120 + fst o))
                                      (u16 (120 + snd o)) color) offs)) /\
    (forall a b, In (a, b) offs -> on_ring 20 a b) /\
    In (20, 0) offs /\ In (0, 20) offs /\ In (- 20, 0) offs /\
    In (0, - 20) offs)
  /\
  (forall x y err, In (x, y, err) (circle_heads 21 20 0 0) ->
     err = x * x + y * y - 20 * 20 + 2 * y).
Proof.
  apply (draw_circle_on_ring 21 120 120 20); lia.
Defined.

(** ** Rings of an arc *)

Section ArcRings.
Variables arc_x arc_y : Z -> Z -> spec_float -> Z.

Lemma arc_sweep_angles fuel cx cy rr color e : forall a,
  arc_sweep arc_x arc_y fuel cx cy rr color e a =
  match sweep_angles fuel e a with
  | Returned l =>
      Returned (map (fun a => (arc_x cx rr a, arc_y cy rr a, color)) l)
  | Running l =>
      Running (map (fun a => (arc_x cx rr a, arc_y cy rr a, color)) l)
  end.
Proof.
  induction fuel as [| fuel IH]; intros a; cbn [arc_sweep sweep_angles].
  - destruct (SFleb a e); reflexivity.
  - destruct (SFleb a e); [| reflexivity].
    rewrite IH.
    destruct (sweep_angles fuel e (fadd a (float_of_int 2))); reflexivity.
Qed.

Lemma arc_rings_returned fuel cx cy radius color s e angles :
  sweep_angles fuel e s = Returned angles ->
  forall n t,
    arc_rings arc_x arc_y n fuel cx cy radius color s e t =
    Returned (flat_map (fun t' =>
                map (fun a => (arc_x cx (radius - t') a,
                               arc_y cy (radius - t') a, color)) angles)
              (seqZ t (Z.of_nat n))).
Proof.
  intros Hs. induction n as [| n IH]; intros t; [reflexivity |].
  cbn [arc_rings]. rewrite arc_sweep_angles, Hs, IH.
  cbn [seq_outcome emit]. rewrite (seqZ_cons t (Z.of_nat (S n))) by lia.
  replace (Z.pred (Z.of_nat (S n))) with (Z.of_nat n) by lia.
  reflexivity.
Qed.

Lemma arc_sweep_stalls fuel cx cy rr color e s :
  SFleb s e = true -> fadd s (float_of_int 2) = s ->
  arc_sweep arc_x arc_y fuel cx cy rr color e s =
  Running (replicate fuel (arc_x cx rr s, arc_y cy rr s, color)).
Proof.
  intros Hle Hstep. induction fuel as [| fuel IH]; cbn [arc_sweep].
  - now rewrite Hle.
  - rewrite Hle, Hstep, IH. reflexivity.
Qed.

(** X15.  The rings of an arc: when the sweep over the angles is left,
    [drawArc] returns and draws, for every [t] from 0 to [thickness - 1]
    in turn, one pixel per angle of that same sweep at radius
    [radius - t], so the thickness grows towards the centre; a thickness
    of zero or less draws nothing. *)
Theorem drawArc_rings (fuel : nat) (cx cy radius : Z) (s e : spec_float)
    (color thickness : Z) (angles : list spec_float) :
  sweep_angles fuel
    (if SFltb e s then fadd e (float_of_int 360) else e) s
    = Returned angles ->
  drawArc arc_x arc_y fuel cx cy radius s e color thickness =
  Returned (flat_map (fun t =>
              map (fun a => (arc_x cx (radius - t) a,
                             arc_y cy (radius - t) a, color)) angles)
            (seqZ 0 thickness)).
Proof.
  intros Hs. unfold drawArc.
  rewrite (arc_rings_returned fuel cx cy radius color s _ angles Hs).
  destruct (Z_le_gt_dec 0 thickness) as [Hp | Hn].
  - now rewrite Z2Nat.id by assumption.
  - replace (Z.to_nat thickness) with 0%nat by lia.
    now rewrite (seqZ_nil 0 thickness) by lia.
Qed.

(** X16.  A sweep that cannot advance never ends: when the start angle
    is so large that adding 2 in [float] gives the same value again, is
    not above the end angle, and the thickness is at least one, [drawArc]
    does not return, whatever the number of passes, and keeps drawing the
    pixel of the start angle. *)
Theorem drawArc_stalls (fuel : nat) (cx cy radius : Z) (s e : spec_float)
    (color thickness : Z) :
  1 <= thickness -> SFltb e s = false -> SFleb s e = true ->
  fadd s (float_of_int 2) = s ->
  drawArc arc_x arc_y fuel cx cy radius s e color thickness =
  Running (replicate fuel (arc_x cx radius s, arc_y cy radius s, color)).
Proof.
  intros Ht Hlt Hle Hstep. unfold drawArc. rewrite Hlt.
  destruct (Z.to_nat thickness) as [| n] eqn:En; [lia |].
  cbn [arc_rings]. rewrite arc_sweep_stalls by assumption.
  cbn [seq_outcome]. now rewrite Z.sub_0_r.
Qed.
End ArcRings.

Lemma drawArc_rings_witness :
  let arc_x := fun (c rr : Z) (_ : spec_float) => c + rr in
  let arc_y := fun (c rr : Z) (_ : spec_float) => c in
  let angles := map float_of_int
                  [350; 352; 354; 356; 358; 360; 362; 364; 366; 368; 370] in
  drawArc arc_x arc_y 12 120 80 60 (float_of_int 350) (float_of_int 10)
          RED 3 =
  Returned (flat_map (fun t =>
              map (fun a => (arc_x 120 (60 - t) a, arc_y 80 (60 - t) a, RED))
                  angles)
            (seqZ 0 3)).
Proof.
  intros arc_x arc_y angles.
  apply (drawArc_rings arc_x arc_y 12 120 80 60 (float_of_int 350)
           (float_of_int 10) RED 3 angles).
  vm_compute. reflexivity.
Defined.

Lemma drawArc_stalls_witness :
  let arc_x := fun (c rr : Z) (_ : spec_float) => c + rr in
  let arc_y := fun (c rr : Z) (_ : spec_float) => c in
  drawArc arc_x arc_y 1000 120 80 60 (float_of_int 33554432)
          (float_of_int 33554440) RED 1 =
  Running (replicate 1000 (arc_x 120 60 (float_of_int 33554432),
                           arc_y 80 60 (float_of_int 33554432), RED)).
Proof.
  intros arc_x arc_y.
  apply (drawArc_stalls arc_x arc_y 1000 120 80 60 (float_of_int 33554432)
           (float_of_int 33554440) RED 1);
    [lia | vm_compute; reflexivity ..].
Defined.

(** ** The colour loop of HelloWorld *)

Lemma u32_elapsed last elapsed :
  0 <= last < 4294967296 -> 0 <= elapsed < 4294967296 ->
  u32 (u32 (last + elapsed) - last) = elapsed.
Proof.
  intros Hl He. unfold u32.
  rewrite Zminus_mod_idemp_l.
  replace (last + elapsed - last) with elapsed by lia.
  apply Z.mod_small. lia.
Qed.

(** X17.  One pass of [loop] is safe against the roll-over of
    [millis()] and keeps the palette index in range: when [elapsed]
    milliseconds have gone by since the last change, whether or not the
    32-bit counter wrapped in between, the pass repaints exactly when
    [elapsed] exceeds the interval; it then fills the screen with the
    colour at the index, after the delay of one second, and moves the
    index on by one, back to 0 after the last colour; otherwise it only
    waits and keeps its state.  The index stays below the number of
    colours either way.  ([loop] is the instance with five colours and
    100 ms, [loop_documented] the one with eight and 10000 ms.) *)
Theorem loop_rollover_safe (colors : list Z) (period interval : Z)
    (last elapsed now' idx : Z) :
  1 <= period <= 256 -> 0 <= idx < period ->
  0 <= last < 4294967296 -> 0 <= elapsed < 4294967296 ->
  let pass := loop_with colors period interval (u32 (last + elapsed)) now'
                        (ColorCycle last idx) in
  pass =
    (if elapsed >? interval
     then (Delay 1000 :: tft_fill_screen (nth (Z.to_nat idx) colors 0),
           ColorCycle now' ((idx + 1) mod period))
     else ([Delay 1000], ColorCycle last idx)) /\
  0 <= colorIndex (snd pass) < period.
Proof.
  intros Hp Hi Hl He pass. subst pass. unfold loop_with.
  cbn [lastColorChange colorIndex].
  rewrite u32_elapsed by assumption.
  rewrite Z.rem_mod_nonneg by lia.
  pose proof (Z.mod_pos_bound (idx + 1) period ltac:(lia)) as Hm.
  replace (u8 ((idx + 1) mod period)) with ((idx + 1) mod period)
    by (unfold u8; symmetry; apply Z.mod_small; lia).
  destruct (elapsed >? interval); cbn [snd colorIndex]; split;
    (reflexivity || lia).
Qed.

Lemma loop_rollover_safe_witness :
  loop (u32 (4294967000 + 500)) 204 (ColorCycle 4294967000 4) =
  (Delay 1000 :: tft_fill_screen 0xFFFF, ColorCycle 204 0).
Proof.
  apply (loop_rollover_safe [0x0000; 0x001F; 0x07E0; 0xF800; 0xFFFF] 5 100
           4294967000 500 204 4); lia.
Defined.

(** ** Start-up of the meters sketch *)

Lemma startup_bars_returns n : forall fuel i,
  240 - 10 * Z.of_nat n <= i -> (n < fuel)%nat ->
  exists t, startup_bars fuel i = Returned t.
Proof.
  induction n as [| n IH]; intros fuel i Hi Hf;
    (destruct fuel as [| fuel]; [lia |]); cbn [startup_bars];
    destruct (Z.ltb_spec i 240) as [Hlt | Hge];
    try (eexists; reflexivity); try lia.
  destruct (IH fuel (i + 10)) as (t & Ht); try lia.
  rewrite Ht. eexists. reflexivity.
Qed.

Lemma ends_with_fill s st (pre : list io) c a b :
  is_u16 c -> in_panel a b = true ->
  gram (run st (wire s (pre ++ tft_fill_rect 0 0 TFT_WIDTH TFT_HEIGHT c)))
    !! (a, b) = Some c.
Proof.
  intros Hc Hin. rewrite wire_app, run_app.
  rewrite fill_rect_lookup
    by (unfold on_panel, TFT_WIDTH, TFT_HEIGHT; (assumption || lia)).
  assert (E : inside 0 0 TFT_WIDTH TFT_HEIGHT a b = true).
  { apply inside_spec. apply in_panel_spec in Hin. lia. }
  now rewrite E.
Qed.

(** X18.  [setup] of the meters sketch returns (120 passes per loop are
    enough: the longest is the long side of the title frame) and leaves
    the whole panel black, whatever the frame memory held before and
    whatever the pins were. *)
Theorem setup_clears_panel (s : pins) (st : gc9a01) (fuel : nat) (a b : Z) :
  (120 <= fuel)%nat -> in_panel a b = true ->
  exists t : list io,
    setup fuel = Returned t /\
    gram (run st (wire s t)) !! (a, b) = Some BLACK.
Proof.
  intros Hf Hin. unfold setup, showStartup.
  destruct (startup_bars_returns 24 fuel 0) as (t1 & H1); try lia.
  rewrite H1. unfold tft_draw_rect.
  rewrite draw_rect_replay, rect_pixels_outline
    by (unfold on_panel, TFT_WIDTH, TFT_HEIGHT; lia).
  cbn [replay seq_outcome emit].
  eexists. split; [reflexivity |].
  rewrite !app_assoc. apply ends_with_fill; [| assumption].
  unfold is_u16, BLACK. lia.
Qed.

Lemma setup_clears_panel_witness :
  exists t : list io,
    setup 120 = Returned t /\
    gram (run power_on (wire (Pins LOW HIGH) t)) !! (239, 239) = Some BLACK.
Proof.
  apply (setup_clears_panel (Pins LOW HIGH) power_on 120 239 239);
    [lia | reflexivity].
Defined.

(** ** The status bar *)

Lemma untouched_flat_map {B} x y w h (f : B -> list io) (l : list B) :
  (forall i, In i l -> untouched_outside x y w h (f i)) ->
  untouched_outside x y w h (flat_map f l).
Proof.
  induction l as [| i l IH]; intros H; [apply untouched_nil |].
  cbn [flat_map]. apply untouched_app.
  - apply H. now left.
  - apply IH. intros j Hj. apply H. now right.
Qed.

Lemma untouched_draw_number x y buffer color size :
  0 <= x -> 0 <= y -> 1 <= size -> is_u16 color ->
  x + 6 * size * number_cells buffer <= TFT_WIDTH ->
  y + 7 * size <= TFT_HEIGHT ->
  untouched_outside x y (6 * size * number_cells buffer) (7 * size)
                    (tft_draw_number x y buffer color size).
Proof.
  intros Hx Hy Hs Hc Hw Hh.
  pose proof (number_loop_box x y color size Hx Hy Hs Hc Hh buffer 0
                ltac:(lia)) as H.
  cbn [Z.add] in H. exact (H Hw).
Qed.

(** X20.  The status bar stays in its rows: [drawStatusBar] returns (more
    than 240 passes of the line loop are enough) and, when the four
    numbers are short enough to end on the panel, writes no cell below
    row 20, so the area that [loop] clears from row 25 on is left
    alone. *)
Theorem status_bar_confined (fuel : nat) (cpu heap minutes seconds : string) :
  (240 < fuel)%nat ->
  number_cells cpu <= 39 -> number_cells heap <= 10 ->
  number_cells minutes <= 23 -> number_cells seconds <= 20 ->
  exists t : list io,
    drawStatusBar fuel cpu heap minutes seconds = Returned t /\
    untouched_outside 0 0 TFT_WIDTH 21 t.
Proof.
  intros Hf H1 H2 H3 H4. unfold drawStatusBar, tft_draw_line.
  rewrite (draw_line_row _ fuel 0 TFT_WIDTH 20)
    by (unfold is_u16, TFT_WIDTH; lia).
  cbn [seq_outcome emit]. eexists. split; [reflexivity |].
  assert (HN : forall x buffer color,
    0 <= x -> is_u16 color -> x + 6 * number_cells buffer <= 240 ->
    untouched_outside 0 0 TFT_WIDTH 21 (tft_draw_number x 6 buffer color 1)).
  { intros x buffer color Hx Hc Hw.
    pose proof (number_cells_nonneg buffer).
    apply (untouched_mono x 6 (6 * 1 * number_cells buffer) (7 * 1));
      unfold TFT_WIDTH; try lia.
    apply untouched_draw_number; unfold TFT_WIDTH, TFT_HEIGHT; (assumption || lia). }
  apply untouched_app; [| apply untouched_app; [| apply untouched_app;
    [| apply untouched_app; [| apply untouched_app]]]].
  - apply (untouched_mono 0 0 TFT_WIDTH 20); try lia.
    apply untouched_fill;
      unfold on_panel, is_u16, DARK_GRAY, TFT_WIDTH, TFT_HEIGHT; lia.
  - apply untouched_flat_map. intros i Hi.
    apply list_elem_of_In, elem_of_seqZ in Hi.
    unfold TFT_WIDTH in Hi.
    destruct (Z_lt_le_dec i 240) as [Hin | Hout].
    + rewrite draw_pixel_in by (unfold TFT_WIDTH, TFT_HEIGHT; lia).
      apply (untouched_mono i 20 1 1); unfold TFT_WIDTH; try lia.
      apply untouched_fill;
        unfold on_panel, is_u16, GRAY, TFT_WIDTH, TFT_HEIGHT; lia.
    + rewrite draw_pixel_out by (unfold TFT_WIDTH; lia).
      apply untouched_nil.
  - apply HN; unfold is_u16, GREEN; lia.
  - apply HN; unfold is_u16, CYAN; lia.
  - apply HN; unfold is_u16, WHITE; lia.
  - apply HN; unfold is_u16, WHITE; lia.
Qed.

Lemma status_bar_confined_witness :
  exists t : list io,
    drawStatusBar 241 "160" "212" "71582" "59" = Returned t /\
    untouched_outside 0 0 TFT_WIDTH 21 t.
Proof.
  apply (status_bar_confined 241 "160" "212" "71582" "59");
    [lia | apply Z.leb_le; reflexivity ..].
Defined.

(** ** The corner indicators *)

Lemma animColor_fields brightness :
  0 <= brightness <= 255 ->
  is_u16 (animColor brightness) /\
  Z.shiftr (animColor brightness) 11 = Z.shiftr brightness 3 /\
  Z.land (Z.shiftr (animColor brightness) 5) 63 = Z.shiftr brightness 2 /\
  Z.land (animColor brightness) 31 = Z.shiftr brightness 3.
Proof.
  intros Hb.
  assert (All : forallb (fun v =>
            let c := animColor v in
            (0 <=? c) && (c <? 65536) &&
            (Z.shiftr c 11 =? Z.shiftr v 3) &&
            (Z.land (Z.shiftr c 5) 63 =? Z.shiftr v 2) &&
            (Z.land c 31 =? Z.shiftr v 3))
          (map Z.of_nat (seq 0 256)) = true) by (vm_compute; reflexivity).
  rewrite forallb_forall in All.
  specialize (All brightness).
  cbv zeta in All.
  rewrite !andb_true_iff, Z.leb_le, Z.ltb_lt, !Z.eqb_eq in All.
  unfold is_u16.
  assert (Hin : In brightness (map Z.of_nat (seq 0 256))).
  { apply in_map_iff. exists (Z.to_nat brightness). split; [lia |].
    apply in_seq. lia. }
  destruct (All Hin) as [[[H1 H2] H3] H4]. auto.
Qed.

(** X21.  The corner indicators are grey: for a brightness of at most 255
    (what [128 + 127 * sin] can give) the colour of
    [drawAnimatedElements] is an RGB565 value whose red and blue fields
    are the top five bits of the brightness and whose green field is its
    top six bits, and the two squares of 10 by 10 in the bottom corners
    are all it paints. *)
Theorem animated_elements_grey (s : pins) (st : gc9a01)
    (brightness a b : Z) :
  0 <= brightness <= 255 ->
  let c := animColor brightness in
  Z.shiftr c 11 = Z.shiftr brightness 3 /\
  Z.land (Z.shiftr c 5) 63 = Z.shiftr brightness 2 /\
  Z.land c 31 = Z.shiftr brightness 3 /\
  gram (run st (wire s (drawAnimatedElements brightness))) !! (a, b) =
  if inside 5 225 10 10 a b || inside 225 225 10 10 a b
  then Some c else gram st !! (a, b).
Proof.
  intros Hb c. subst c.
  destruct (animColor_fields brightness Hb) as (Hc & Hr & Hg & Hbl).
  repeat split; try assumption.
  unfold drawAnimatedElements.
  change (tft_fill_rect 5 225 10 10 (animColor brightness) ++
          tft_fill_rect 225 225 10 10 (animColor brightness))
    with (fills (animColor brightness)
            ([(5, 225, 10, 10); (225, 225, 10, 10)] ++ [])).
  rewrite app_nil_r.
  rewrite fills_lookup; [| | assumption].
  - cbn [covered existsb fst snd]. now rewrite orb_false_r.
  - repeat constructor;
      unfold rect_on_panel, on_panel, TFT_WIDTH, TFT_HEIGHT; cbn [fst snd];
      lia.
Qed.

Lemma animated_elements_grey_witness :
  Z.shiftr (animColor 200) 11 = Z.shiftr 200 3.
Proof.
  apply (animated_elements_grey (Pins LOW HIGH) power_on 200 0 0); lia.
Defined.

(** ** The sensor panels *)

Lemma untouched_fill_empty x y w h c x' y' w' h' :
  is_u16 x -> is_u16 y -> w * h = 0 ->
  untouched_outside x' y' w' h' (tft_fill_rect x y w h c).
Proof.
  intros Hx Hy Hz s st a b _.
  rewrite wire_fill_rect, Hz. cbn [Z.to_nat replicate concat].
  rewrite app_nil_r. now rewrite run_addr_window.
Qed.

Lemma untouched_pixel x y w h px py c :
  on_panel x y w h -> is_u16 c ->
  x <= px < x + w -> y <= py < y + h ->
  untouched_outside x y w h (tft_draw_pixel px py c).
Proof.
  unfold on_panel, TFT_WIDTH, TFT_HEIGHT. intros Hr Hc Hx Hy.
  rewrite draw_pixel_in by (unfold TFT_WIDTH, TFT_HEIGHT; lia).
  apply (untouched_mono px py 1 1); try lia.
  apply untouched_fill; [| assumption].
  unfold on_panel, TFT_WIDTH, TFT_HEIGHT. lia.
Qed.

Lemma outline_pixels_inside x y w h p :
  1 <= w -> 1 <= h ->
  In p (map (fun i => (i, y)) (seqZ x w) ++
        map (fun i => (i, y + h - 1)) (seqZ x w) ++
        map (fun j => (x, j)) (seqZ y h) ++
        map (fun j => (x + w - 1, j)) (seqZ y h)) ->
  x <= fst p < x + w /\ y <= snd p < y + h.
Proof.
  intros Hw Hh Hp.
  repeat (apply in_app_or in Hp as [Hp | Hp]);
    apply in_map_iff in Hp as (i & <- & Hi);
    apply list_elem_of_In, elem_of_seqZ in Hi; cbn [fst snd]; lia.
Qed.

(** X22.  A sensor panel stays in its frame: on a rectangle of the panel
    of at least 25 by 43 cells, with a value text that ends before the
    right edge and a bar fill of at most the bar's width,
    [drawSensorPanel] returns (as many passes as the longer side are
    enough) and writes no cell outside the rectangle, so the four panels
    of [loop] do not disturb each other or the status bar; an index that
    is not below [numSensors] draws nothing. *)
Theorem sensor_panel_confined (fuel : nat) (index color : Z)
    (warning : bool) (buffer : string) (fillWidth x y w h : Z) :
  on_panel x y w h -> 25 <= w -> 43 <= h -> is_u16 color ->
  5 + 12 * number_cells buffer <= w ->
  0 <= fillWidth <= w - 10 ->
  (Z.to_nat (Z.max w h) <= fuel)%nat ->
  exists t : list io,
    drawSensorPanel fuel index color warning buffer fillWidth x y w h
      = Returned t /\
    untouched_outside x y w h t /\
    (numSensors <= index -> t = []).
Proof.
  intros Hr Hw Hh Hc Hb Hfw Hf. unfold drawSensorPanel.
  destruct (Z.geb_spec index numSensors) as [Hi | Hi].
  { exists []. split; [reflexivity |].
    split; [apply untouched_nil | reflexivity]. }
  cbv zeta.
  assert (Hbc : is_u16 (if warning then RED else color))
    by (destruct warning; [unfold is_u16, RED; lia | assumption]).
  pose proof Hr as (Hx & Hy & _ & _ & Hxw & Hyh).
  unfold TFT_WIDTH, TFT_HEIGHT in Hxw, Hyh.
  pose proof (number_cells_nonneg buffer) as Hn.
  rewrite (u16_id (x + w - 8)), (u16_id (y + 3)), (u16_id (x + 5)),
    (u16_id (y + 10)), (u16_id (y + 35)), (u16_id (w - 10)),
    (u16_id (y + h - 12)) by (unfold is_u16; lia).
  unfold tft_draw_rect.
  rewrite draw_rect_replay, rect_pixels_outline by assumption.
  cbn [replay seq_outcome emit]. eexists. split; [reflexivity |].
  split; [| intros; lia].
  apply untouched_app; [| apply untouched_app; [| apply untouched_app;
    [| apply untouched_app; [| apply untouched_app;
    [| apply untouched_app]]]]].
  - apply untouched_fill; [assumption |]. unfold is_u16, DARK_GRAY. lia.
  - apply untouched_flat_map. intros p Hp.
    apply outline_pixels_inside in Hp; try lia.
    apply untouched_pixel; (assumption || lia).
  - apply (untouched_mono (x + w - 8) (y + 3) 5 5); try lia.
    apply untouched_fill; [| assumption].
    unfold on_panel, TFT_WIDTH, TFT_HEIGHT. lia.
  - apply (untouched_mono (x + 5) (y + 10)
             (6 * 2 * number_cells buffer) (7 * 2)); try lia.
    apply untouched_draw_number;
      unfold is_u16, WHITE, TFT_WIDTH, TFT_HEIGHT; lia.
  - apply (untouched_mono (x + 5) (y + 35) 20 8); try lia.
    apply untouched_fill; [| assumption].
    unfold on_panel, TFT_WIDTH, TFT_HEIGHT. lia.
  - apply (untouched_mono (x + 5) (y + h - 12) (w - 10) 6); try lia.
    apply untouched_fill; [| unfold is_u16, GRAY; lia].
    unfold on_panel, TFT_WIDTH, TFT_HEIGHT. lia.
  - destruct (Z.eq_dec fillWidth 0) as [-> | Hnz].
    + apply untouched_fill_empty; unfold is_u16; lia.
    + apply (untouched_mono (x + 5) (y + h - 12) fillWidth 6); try lia.
      apply untouched_fill; [| assumption].
      unfold on_panel, TFT_WIDTH, TFT_HEIGHT. lia.
Qed.

Lemma sensor_panel_confined_witness :
  exists t : list io,
    drawSensorPanel 110 0 0xFD20 false "25.5" 42 10 30 110 50 = Returned t /\
    untouched_outside 10 30 110 50 t /\
    (numSensors <= 0 -> t = []).
Proof.
  apply (sensor_panel_confined 110 0 0xFD20 false "25.5" 42 10 30 110 50);
    try (unfold on_panel, is_u16, TFT_WIDTH, TFT_HEIGHT; lia).
  apply Z.leb_le. reflexivity.
Defined.
